(** * ip-intel-agent: the decision logic of [src/index.ts]

    A shallow embedding of the handlers [full], [batch], [threat] and
    [distance] of the agent and of the two helpers [isValidIP] and
    [haversineDistance], followed by the properties of the specification
    that are settled against them.

    Conventions.
    - A JavaScript number is a binary64 float ([PrimFloat.float]); the
      arithmetic operators are the IEEE-754 ones of the kernel.
    - A JavaScript value read out of a provider's JSON document is a
      [value]; an object is a finite map from property names to values.
    - Strings are sequences of bytes (UTF-8).  The regular expressions and
      the separator [","] of the source are pure ASCII, and no byte of a
      multi-byte UTF-8 sequence is an ASCII byte, so matching and splitting
      agree with the UTF-16 strings of the engine.
    - A handler that can raise is a computation in the [exec] monad.
    - What the program asks of the JavaScript engine and cannot be read in
      the repository (the approximated [Math] functions, [parseFloat], the
      printing of numbers) is a field of the record [Engine].
    - Every request a handler sends is answered by the [internet]: the
      outcome of the [i]-th call of [fetchJSON] the handler makes, for the
      URL it asks. *)

From Stdlib Require Import Floats ZArith Lia Ascii String.
From stdpp Require Import base option strings list gmap.

#[local] Set Warnings "-register-all,-inexact-float".
#[local] Open Scope string_scope.

(* ===================================================================== *)
(** ** JavaScript values *)
(* ===================================================================== *)

(** [VFunction] stands for a built-in method found on a prototype: JSON
    never holds one, but a property read can return one (see [prop]). *)
Inductive value : Type :=
| VUndefined
| VNull
| VBool (b : bool)
| VNum (n : float)
| VStr (s : string)
| VArr (items : list value)
| VObj (props : gmap string value)
| VFunction.

(** An uncaught exception.  The only ones the handlers can raise are the
    [TypeError]s of the engine and the rejection of an awaited fetch. *)
Inductive js_error : Type :=
| TypeError
| FetchRejected.

Inductive exec (A : Type) : Type :=
| Returns (a : A)
| Throws (e : js_error).
Arguments Returns {A} a.
Arguments Throws {A} e.

#[global] Instance exec_ret : MRet exec := @Returns.
#[global] Instance exec_bind : MBind exec := fun A B k m =>
  match m with
  | Returns a => k a
  | Throws e => Throws e
  end.

(** ToBoolean: the falsy values are [undefined], [null], [false], [+0],
    [-0], [NaN] and the empty string. *)
Definition truthy (v : value) : bool :=
  match v with
  | VUndefined | VNull => false
  | VBool b => b
  | VNum n => negb (is_zero n || is_nan n)
  | VStr s => negb (String.eqb s "")
  | VArr _ | VObj _ | VFunction => true
  end.

Definition is_nullish (v : value) : bool :=
  match v with
  | VUndefined | VNull => true
  | _ => false
  end.

(** [a || b] on operands that cannot raise. *)
Definition js_or (a b : value) : value := if truthy a then a else b.

(** [a || b] in general: the right operand is evaluated only when the left
    one is falsy. *)
Definition exec_or (a b : exec value) : exec value :=
  v ← a; if truthy v then Returns v else b.

(** [a ?? b]. *)
Definition js_coalesce (a b : value) : value := if is_nullish a then b else a.

Infix "|||" := js_or (at level 50, left associativity).
Infix "|||!" := exec_or (at level 50, left associativity).
Infix "???" := js_coalesce (at level 50, left associativity).

(** [v.k] for a [v] that is neither [undefined] nor [null], at the property
    names the handlers read.  An object answers with its own property; none
    of the names read is a member of [Object.prototype], [String.prototype],
    [Number.prototype] or [Boolean.prototype], and ["reverse"] is the only
    one that is a member of [Array.prototype]. *)
Definition prop (v : value) (k : string) : value :=
  match v with
  | VObj o => default VUndefined (o !! k)
  | VArr _ => if String.eqb k "reverse" then VFunction else VUndefined
  | _ => VUndefined
  end.

(** [v?.k] *)
Definition opt_chain (v : value) (k : string) : value :=
  if is_nullish v then VUndefined else prop v k.

(** [v.k] *)
Definition member (v : value) (k : string) : exec value :=
  if is_nullish v then Throws TypeError else Returns (prop v k).

Notation "v ?. k" := (opt_chain v k) (at level 40, left associativity).

(** [a === b] where [a] is any value and [b] a string literal. *)
Definition is_string (v : value) (s : string) : bool :=
  match v with
  | VStr s' => String.eqb s' s
  | _ => false
  end.

(** [a === b] for two values read from two different JSON documents: two
    objects or arrays are then never the same object; numbers compare as
    IEEE-754 does ([NaN] differs from itself, the two zeros are equal). *)
Definition strict_equals (a b : value) : bool :=
  match a, b with
  | VUndefined, VUndefined | VNull, VNull | VFunction, VFunction => true
  | VBool x, VBool y => Bool.eqb x y
  | VNum x, VNum y => PrimFloat.eqb x y
  | VStr x, VStr y => String.eqb x y
  | _, _ => false
  end.

(** [!!v] as a value. *)
Definition to_boolean (v : value) : value := VBool (truthy v).

(* ===================================================================== *)
(** ** The engine *)
(* ===================================================================== *)

Record Engine : Type := {
  Math_sin : float -> float;
  Math_cos : float -> float;
  Math_atan2 : float -> float -> float;
  Math_round : float -> float;
  (** [base ** exponent] *)
  exponentiate : float -> float -> float;
  parseFloat : string -> float;
  (** ToNumber on a string *)
  StringToNumber : string -> float;
  (** ToString on a number *)
  Number_toString : float -> string;
}.

(** [Math.PI] is the double nearest to pi. *)
Definition Math_PI : float := 0x1.921fb54442d18p+1%float.

(** [Array.prototype.join] with the separator [","], over strings. *)
Fixpoint join_comma (l : list string) : string :=
  match l with
  | [] => ""
  | [s] => s
  | s :: rest => s ++ "," ++ join_comma rest
  end.

Section Conversions.
Context (E : Engine).

(** ToString.  An object is printed by [Object.prototype.toString] unless
    an own property shadows that method: the shadow is a JSON value, not a
    function, and [valueOf] gives back the object, so the conversion
    raises.  An array is printed by [join], where [null] and [undefined]
    print as the empty string. *)
Fixpoint ToString (v : value) : exec string :=
  match v with
  | VUndefined => Returns "undefined"
  | VNull => Returns "null"
  | VBool true => Returns "true"
  | VBool false => Returns "false"
  | VNum n => Returns (Number_toString E n)
  | VStr s => Returns s
  | VArr items =>
      let fix each (l : list value) : exec (list string) :=
        match l with
        | [] => Returns []
        | x :: rest =>
            s ← (if is_nullish x then Returns "" else ToString x);
            ss ← each rest;
            Returns (s :: ss)
        end in
      ss ← each items; Returns (join_comma ss)
  | VObj o =>
      match o !! "toString" with
      | Some _ => Throws TypeError
      | None => Returns "[object Object]"
      end
  | VFunction => Returns "function reverse() { [native code] }"
  end.

(** ToNumber. *)
Definition ToNumber (v : value) : exec float :=
  match v with
  | VUndefined => Returns nan
  | VNull => Returns 0%float
  | VBool true => Returns 1%float
  | VBool false => Returns 0%float
  | VNum n => Returns n
  | VStr s => Returns (StringToNumber E s)
  | VArr _ | VObj _ | VFunction =>
      s ← ToString v; Returns (StringToNumber E s)
  end.

(** A template literal with one substitution: [`${prefix}${v}`]. *)
Definition template (prefix : string) (v : value) : exec value :=
  s ← ToString v; Returns (VStr (prefix ++ s)).

End Conversions.

(** [s.split(",")] on a string. *)
Fixpoint split_comma (s : string) : list string :=
  match s with
  | EmptyString => [EmptyString]
  | String c rest =>
      if Ascii.eqb c ","%char then EmptyString :: split_comma rest
      else match split_comma rest with
           | [] => [String c EmptyString]
           | piece :: pieces => String c piece :: pieces
           end
  end.

(** [v.split(",")]: only a string has the method; on any other value the
    property read gives [undefined] or a JSON value, and the call raises. *)
Definition call_split (v : value) : exec (list string) :=
  match v with
  | VStr s => Returns (split_comma s)
  | _ => Throws TypeError
  end.

(** [pieces[i]] converted to a string, as [parseFloat] does to its
    argument: a missing element is [undefined]. *)
Definition element_string (pieces : list string) (i : nat) : string :=
  default "undefined" (pieces !! i).

(* ===================================================================== *)
(** ** Regular expressions and [isValidIP] *)
(* ===================================================================== *)

(** The fragment of the regular expressions of JavaScript that the two
    patterns of [isValidIP] are written in: literal characters and character
    classes, concatenation, alternation, [?] and the bounded repetitions
    [{n}] and [{m,n}].  Both patterns are anchored at both ends in every
    alternative, so [RegExp.prototype.test] answers whether the whole string
    belongs to the language of the expression; [test] decides that with
    Brzozowski derivatives. *)
Module RegExp.

Inductive regex : Type :=
| Void
| Eps
| Class (ranges : list (ascii * ascii))
| Cat (r1 r2 : regex)
| Alt (r1 r2 : regex).

Definition in_range (c : ascii) (range : ascii * ascii) : bool :=
  (nat_of_ascii (fst range) <=? nat_of_ascii c)%nat
  && (nat_of_ascii c <=? nat_of_ascii (snd range))%nat.

Definition in_class (c : ascii) (ranges : list (ascii * ascii)) : bool :=
  existsb (in_range c) ranges.

(** The language of an expression. *)
Inductive Matches : regex -> string -> Prop :=
| MEps : Matches Eps EmptyString
| MClass c ranges :
    in_class c ranges = true -> Matches (Class ranges) (String c EmptyString)
| MCat r1 r2 s1 s2 :
    Matches r1 s1 -> Matches r2 s2 -> Matches (Cat r1 r2) (s1 ++ s2)
| MAltL r1 r2 s : Matches r1 s -> Matches (Alt r1 r2) s
| MAltR r1 r2 s : Matches r2 s -> Matches (Alt r1 r2) s.

Fixpoint nullable (r : regex) : bool :=
  match r with
  | Void => false
  | Eps => true
  | Class _ => false
  | Cat r1 r2 => nullable r1 && nullable r2
  | Alt r1 r2 => nullable r1 || nullable r2
  end.

Fixpoint deriv (c : ascii) (r : regex) : regex :=
  match r with
  | Void | Eps => Void
  | Class ranges => if in_class c ranges then Eps else Void
  | Cat r1 r2 =>
      if nullable r1 then Alt (Cat (deriv c r1) r2) (deriv c r2)
      else Cat (deriv c r1) r2
  | Alt r1 r2 => Alt (deriv c r1) (deriv c r2)
  end.

Fixpoint test (r : regex) (s : string) : bool :=
  match s with
  | EmptyString => nullable r
  | String c rest => test (deriv c r) rest
  end.

(** Syntax of the patterns. *)
Definition chr (c : ascii) : regex := Class [(c, c)].
Definition opt (r : regex) : regex := Alt r Eps.

(** [r{n}] *)
Fixpoint rep (n : nat) (r : regex) : regex :=
  match n with
  | O => Eps
  | S k => Cat r (rep k r)
  end.

(** [r{0,n}] *)
Fixpoint upto (n : nat) (r : regex) : regex :=
  match n with
  | O => Eps
  | S k => opt (Cat r (upto k r))
  end.

(** [r{m,n}] for [m <= n] *)
Definition rep_range (m n : nat) (r : regex) : regex :=
  Cat (rep m r) (upto (n - m) r).

End RegExp.

Import RegExp.

Definition digit_0_5 : regex := Class [("0", "5")]%char.
Definition digit_0_4 : regex := Class [("0", "4")]%char.
Definition digit_0_9 : regex := Class [("0", "9")]%char.
Definition digit_0_1 : regex := Class [("0", "0"); ("1", "1")]%char.
Definition hex_digit : regex :=
  Class [("0", "9"); ("a", "f"); ("A", "F")]%char.

(** [25[0-5]|2[0-4][0-9]|[01]?[0-9][0-9]?] *)
Definition octet : regex :=
  Alt (Alt (Cat (chr "2") (Cat (chr "5") digit_0_5))
           (Cat (chr "2") (Cat digit_0_4 digit_0_9)))
      (Cat (opt digit_0_1) (Cat digit_0_9 (opt digit_0_9))).

(** [^(?:(?:octet)\.){3}(?:octet)$] *)
Definition ipv4 : regex := Cat (rep 3 (Cat octet (chr "."))) octet.

(** [[0-9a-fA-F]{1,4}] *)
Definition h16 : regex := rep_range 1 4 hex_digit.

(** [^([0-9a-fA-F]{1,4}:){7}[0-9a-fA-F]{1,4}$|^::$|^([0-9a-fA-F]{1,4}:){1,7}:$|^:(:([0-9a-fA-F]{1,4})){1,7}$] *)
Definition ipv6 : regex :=
  Alt (Alt (Alt (Cat (rep 7 (Cat h16 (chr ":"))) h16)
                (Cat (chr ":") (chr ":")))
           (Cat (rep_range 1 7 (Cat h16 (chr ":"))) (chr ":")))
      (Cat (chr ":") (rep_range 1 7 (Cat (chr ":") h16))).

Definition isValidIP (ip : string) : bool := test ipv4 ip || test ipv6 ip.

(* ===================================================================== *)
(** ** The providers *)
(* ===================================================================== *)

(** How the promise of one [fetchJSON(url)] settles: fulfilled with the
    parsed body, or rejected (a status outside 2xx, the 5 s timeout, a
    transport error, a body that is not JSON). *)
Inductive settled : Type :=
| Fulfilled (v : value)
| Rejected.

(** [net i url]: the outcome of the [i]-th request of the handler. *)
Definition internet : Type := nat -> string -> settled.

(** [await p] *)
Definition await (p : settled) : exec value :=
  match p with
  | Fulfilled v => Returns v
  | Rejected => Throws FetchRejected
  end.

(** [try { body } catch (e) { recover }] *)
Definition try_catch {A : Type} (body : exec A) (recover : js_error -> exec A)
  : exec A :=
  match body with
  | Returns a => Returns a
  | Throws e => recover e
  end.

(** [await Promise.all(tasks)]: the results in the order of the tasks, or a
    rejection when a task is rejected. *)
Definition Promise_all {A : Type} (tasks : list (exec A)) : exec (list A) :=
  mapM id tasks.

(* ===================================================================== *)
(** ** Entrypoint [full]: three sources merged *)
(* ===================================================================== *)

Module Full.

Record Location : Type := {
  country : value;
  countryCode : value;
  region : value;
  city : value;
  zip : value;
  lat : value;
  lon : value;
  timezone : value;
}.

Record Network : Type := {
  isp : value;
  org : value;
  asn : value;
  hostname : value;
  domain : value;
}.

Record Threat : Type := {
  isProxy : value;
  isVPN : value;
  isHosting : value;
  isMobile : value;
  isAnycast : value;
}.

Record Confidence : Type := {
  sourcesQueried : nat;
  sourcesResponded : nat;
}.

Record Intelligence : Type := {
  ip : string;
  location : Location;
  network : Network;
  threat : Threat;
  confidence : Confidence;
  sources : list string;
  fetchedAt : string;
}.

Inductive Output : Type :=
| Failure (error : string) (ip : string)
| Merged (o : Intelligence).

Definition url_ip_api (ip : string) : string :=
  "http://ip-api.com/json/" ++ ip
  ++ "?fields=status,country,countryCode,region,regionName,city,zip,lat,lon,timezone,isp,org,as,asname,reverse,mobile,proxy,hosting,query".
Definition url_ipinfo (ip : string) : string :=
  "https://ipinfo.io/" ++ ip ++ "/json".
Definition url_ipwho (ip : string) : string := "https://ipwho.is/" ++ ip.

(** [x.status === 'fulfilled' ? x.value : null] *)
Definition value_or_null (x : settled) : value :=
  match x with
  | Fulfilled v => v
  | Rejected => VNull
  end.

Section Merge.
Context (E : Engine).

(** [secondary?.loc ? parseFloat(secondary.loc.split(',')[i]) : null] *)
Definition loc_coordinate (secondary : value) (i : nat) : exec value :=
  if truthy (secondary ?. "loc")
  then pieces ← call_split (prop secondary "loc");
       Returns (VNum (parseFloat E (element_string pieces i)))
  else Returns VNull.

Definition merge_location (primary secondary tertiary : value)
  : exec Location :=
  lat ← Returns (primary ?. "lat") |||! loc_coordinate secondary 0
        |||! Returns (tertiary ?. "latitude");
  lon ← Returns (primary ?. "lon") |||! loc_coordinate secondary 1
        |||! Returns (tertiary ?. "longitude");
  Returns {|
    country := primary ?. "country" ||| secondary ?. "country"
               ||| tertiary ?. "country";
    countryCode := primary ?. "countryCode" ||| secondary ?. "country"
                   ||| tertiary ?. "country_code";
    region := primary ?. "regionName" ||| secondary ?. "region"
              ||| tertiary ?. "region";
    city := primary ?. "city" ||| secondary ?. "city" ||| tertiary ?. "city";
    zip := primary ?. "zip" ||| secondary ?. "postal" ||| tertiary ?. "postal";
    lat := lat;
    lon := lon;
    timezone := primary ?. "timezone" ||| secondary ?. "timezone"
                ||| tertiary ?. "timezone" ?. "id";
  |}.

Definition merge_network (primary secondary tertiary : value)
  : exec Network :=
  asn ← Returns (primary ?. "as") |||! Returns (secondary ?. "org")
        |||! template E "AS" (tertiary ?. "connection" ?. "asn");
  Returns {|
    isp := primary ?. "isp" ||| tertiary ?. "connection" ?. "isp";
    org := primary ?. "org" ||| secondary ?. "org"
           ||| tertiary ?. "connection" ?. "org";
    asn := asn;
    hostname := primary ?. "reverse" ||| secondary ?. "hostname";
    domain := tertiary ?. "connection" ?. "domain";
  |}.

Definition merge_threat (primary secondary : value) : Threat := {|
  isProxy := primary ?. "proxy" ??? VBool false;
  isVPN := primary ?. "proxy" ??? VBool false;
  isHosting := primary ?. "hosting" ??? VBool false;
  isMobile := primary ?. "mobile" ??? VBool false;
  isAnycast := secondary ?. "anycast" ??? VBool false;
|}.

Definition merge_confidence (primary secondary tertiary : value)
  : Confidence := {|
  sourcesQueried := 3;
  sourcesResponded :=
    length (List.filter truthy [primary; secondary; tertiary]);
|}.

(** The handler, from the three settled fetches on. *)
Definition merge (now ip : string) (ipApi ipInfo ipWho : settled)
  : exec Intelligence :=
  let primary := value_or_null ipApi in
  let secondary := value_or_null ipInfo in
  let tertiary := value_or_null ipWho in
  location ← merge_location primary secondary tertiary;
  network ← merge_network primary secondary tertiary;
  Returns {|
    ip := ip;
    location := location;
    network := network;
    threat := merge_threat primary secondary;
    confidence := merge_confidence primary secondary tertiary;
    sources := ["ip-api.com"; "ipinfo.io"; "ipwho.is"];
    fetchedAt := now;
  |}.

(** [now] is what [new Date().toISOString()] reads when the output is
    built. *)
Definition handler (net : internet) (now ip : string) : exec Output :=
  if negb (isValidIP ip)
  then Returns (Failure "Invalid IP address format" ip)
  else
    (* Promise.allSettled *)
    let ipApi := net 0%nat (url_ip_api ip) in
    let ipInfo := net 1%nat (url_ipinfo ip) in
    let ipWho := net 2%nat (url_ipwho ip) in
    o ← merge now ip ipApi ipInfo ipWho;
    Returns (Merged o).

End Merge.
End Full.

(* ===================================================================== *)
(** ** Entrypoint [batch] *)
(* ===================================================================== *)

Module Batch.

(** One element of [results]: [{ip, error}] or the normalised record. *)
Inductive Item : Type :=
| ItemError (ip : string) (error : string)
| ItemData (ip country countryCode city lat lon isp org asn
            isProxy isHosting : value).

Record Count : Type := {
  requested : nat;
  valid : nat;
  invalid : nat;
}.

(** [invalidIPs] is [None] when the property holds [undefined], which the
    JSON response leaves out. *)
Record Output : Type := {
  results : list Item;
  invalidIPs : option (list string);
  count : Count;
  source : string;
  fetchedAt : string;
}.

Definition url (ip : string) : string :=
  "http://ip-api.com/json/" ++ ip
  ++ "?fields=status,country,countryCode,city,lat,lon,isp,org,as,proxy,hosting,query".

(** The body of the [async (ip) => { try { ... } catch (e) { ... } }] that
    is mapped over the valid addresses; [response] is how its fetch
    settles. *)
Definition lookup_one (response : settled) (ip : string) : exec Item :=
  try_catch
    (data ← await response;
     status ← member data "status";
     if negb (is_string status "success")
     then Returns (ItemError ip "Lookup failed")
     else Returns (ItemData (prop data "query") (prop data "country")
                     (prop data "countryCode") (prop data "city")
                     (prop data "lat") (prop data "lon") (prop data "isp")
                     (prop data "org") (prop data "as") (prop data "proxy")
                     (prop data "hosting")))
    (fun _ => Returns (ItemError ip "Request failed")).

Definition handler (net : internet) (now : string) (ips : list string)
  : exec Output :=
  let validIPs := List.filter isValidIP ips in
  let invalidIPs := List.filter (fun ip => negb (isValidIP ip)) ips in
  results ← Promise_all
              (imap (fun i ip => lookup_one (net i (url ip)) ip) validIPs);
  Returns {|
    results := results;
    invalidIPs := if (0 <? length invalidIPs)%nat
                  then Some invalidIPs else None;
    count := {| requested := length ips;
                valid := length validIPs;
                invalid := length invalidIPs |};
    source := "ip-api.com";
    fetchedAt := now;
  |}.

End Batch.

(* ===================================================================== *)
(** ** Entrypoint [threat] *)
(* ===================================================================== *)

Module ThreatAssessment.

Record Flags : Type := {
  isProxy : value;
  isVPN : value;
  isHosting : value;
  isMobile : value;
  hasReverseDNS : value;
  reverseDNS : value;
}.

(** [score] is an integer-valued number, far below 2^53: the sums are
    exact, and it is kept as an integer. *)
Record Risk : Type := {
  score : Z;
  level : string;
  factors : list string;
}.

Record Network : Type := {
  isp : value;
  org : value;
  asn : value;
  asnName : value;
}.

Record Assessment : Type := {
  ip : value;
  threat : Flags;
  risk : Risk;
  network : Network;
  source : string;
  fetchedAt : string;
}.

Inductive Output : Type :=
| Failure (error : value) (ip : string)
| Assessed (o : Assessment).

Definition url (ip : string) : string :=
  "http://ip-api.com/json/" ++ ip
  ++ "?fields=status,message,country,countryCode,isp,org,as,asname,reverse,mobile,proxy,hosting,query".

(** The two variables [riskScore] and [riskFactors], and one
    [if (cond) { riskScore += points; riskFactors.push(factor); }]. *)
Definition accumulator : Type := Z * list string.

Definition step (cond : bool) (points : Z) (factor : string)
  (acc : accumulator) : accumulator :=
  if cond then ((acc.1 + points)%Z, (acc.2 ++ [factor])%list) else acc.

Definition riskLevel (riskScore : Z) : string :=
  if (50 <=? riskScore)%Z then "high"
  else if (20 <=? riskScore)%Z then "medium"
  else "low".

Definition assess (data : value) : Risk :=
  let acc := (0%Z, []) in
  let acc := step (truthy (prop data "proxy")) 40 "proxy_or_vpn" acc in
  let acc := step (truthy (prop data "hosting")) 30 "datacenter_hosting" acc in
  let acc := step (truthy (prop data "mobile")) 10 "mobile_carrier" acc in
  let acc := step (negb (truthy (prop data "reverse"))) 10 "no_reverse_dns" acc in
  {| score := acc.1; level := riskLevel acc.1; factors := acc.2 |}.

Definition handler (net : internet) (now ip : string) : exec Output :=
  if negb (isValidIP ip)
  then Returns (Failure (VStr "Invalid IP address format") ip)
  else
    data ← await (net 0%nat (url ip));
    status ← member data "status";
    if negb (is_string status "success")
    then Returns (Failure (prop data "message" ||| VStr "Lookup failed") ip)
    else Returns (Assessed {|
      ip := prop data "query";
      threat := {|
        isProxy := prop data "proxy";
        isVPN := prop data "proxy";
        isHosting := prop data "hosting";
        isMobile := prop data "mobile";
        hasReverseDNS := to_boolean (prop data "reverse");
        reverseDNS := prop data "reverse" ||| VNull;
      |};
      risk := assess data;
      network := {|
        isp := prop data "isp";
        org := prop data "org";
        asn := prop data "as";
        asnName := prop data "asname";
      |};
      source := "ip-api.com";
      fetchedAt := now;
    |}).

End ThreatAssessment.

(* ===================================================================== *)
(** ** [haversineDistance] and the entrypoint [distance] *)
(* ===================================================================== *)

Module Distance.

Record Place : Type := {
  ip : value;
  country : value;
  city : value;
  lat : value;
  lon : value;
}.

Record Span : Type := {
  km : float;
  miles : float;
}.

Record Result : Type := {
  ip1 : Place;
  ip2 : Place;
  distance : Span;
  sameCountry : bool;
  sameCity : bool;
  source : string;
  fetchedAt : string;
}.

Inductive Output : Type :=
| Failure (error : string) (ip1 ip2 : string)
| Measured (o : Result).

Definition url (ip : string) : string :=
  "http://ip-api.com/json/" ++ ip ++ "?fields=status,country,city,lat,lon,query".

Section Haversine.
Context (E : Engine).

#[local] Open Scope float_scope.
#[local] Notation "x ** y" := (exponentiate E x y)
  (at level 30, right associativity).

Definition haversineDistance (lat1 lon1 lat2 lon2 : float) : float :=
  let R := 6371 in
  let dLat := (lat2 - lat1) * Math_PI / 180 in
  let dLon := (lon2 - lon1) * Math_PI / 180 in
  let a := Math_sin E (dLat / 2) ** 2
           + Math_cos E (lat1 * Math_PI / 180)
             * Math_cos E (lat2 * Math_PI / 180)
             * Math_sin E (dLon / 2) ** 2 in
  R * 2 * Math_atan2 E (sqrt a) (sqrt (1 - a)).

(** The two constants of the handler and its [distance: {km, miles}]. *)
Definition span (lat1 lon1 lat2 lon2 : float) : Span :=
  let distanceKm := haversineDistance lat1 lon1 lat2 lon2 in
  let distanceMiles := distanceKm * 0.621371 in
  {| km := Math_round E (distanceKm * 100) / 100;
     miles := Math_round E (distanceMiles * 100) / 100 |}.

(** The call [haversineDistance(data1.lat, data1.lon, data2.lat, data2.lon)]
    on what the documents hold: every arithmetic operator of the function
    converts its operand with ToNumber, which gives the same number each
    time, or raises. *)
Definition span_of (data1 data2 : value) : exec Span :=
  lat2 ← ToNumber E (prop data2 "lat");
  lat1 ← ToNumber E (prop data1 "lat");
  lon2 ← ToNumber E (prop data2 "lon");
  lon1 ← ToNumber E (prop data1 "lon");
  Returns (span lat1 lon1 lat2 lon2).

Definition place (data : value) : Place := {|
  ip := prop data "query";
  country := prop data "country";
  city := prop data "city";
  lat := prop data "lat";
  lon := prop data "lon";
|}.

Definition handler (net : internet) (now ip1 ip2 : string) : exec Output :=
  if negb (isValidIP ip1) || negb (isValidIP ip2)
  then Returns (Failure "Invalid IP address format" ip1 ip2)
  else
    data ← Promise_all [await (net 0%nat (url ip1)); await (net 1%nat (url ip2))];
    let data1 := default VUndefined (data !! 0%nat) in
    let data2 := default VUndefined (data !! 1%nat) in
    status1 ← member data1 "status";
    failed ← (if negb (is_string status1 "success") then Returns true
              else status2 ← member data2 "status";
                   Returns (negb (is_string status2 "success")));
    if failed : bool
    then Returns (Failure "One or both IP lookups failed" ip1 ip2)
    else
      distance ← span_of data1 data2;
      Returns (Measured {|
        ip1 := place data1;
        ip2 := place data2;
        distance := distance;
        sameCountry := strict_equals (prop data1 "country") (prop data2 "country");
        sameCity := strict_equals (prop data1 "city") (prop data2 "city");
        source := "ip-api.com";
        fetchedAt := now;
      |}).

End Haversine.
End Distance.

(* ===================================================================== *)
(** ** The specification's rules, in its own words *)
(* ===================================================================== *)

Module Spec.

(** *** Reconciliation *)

(** The fields of the merged record. *)
Inductive field : Type :=
| f_country | f_countryCode | f_region | f_city | f_zip | f_lat | f_lon
| f_timezone
| f_isp | f_org | f_asn | f_hostname | f_domain
| f_isProxy | f_isVPN | f_isHosting | f_isMobile | f_isAnycast.

Definition all_fields : list field :=
  [f_country; f_countryCode; f_region; f_city; f_zip; f_lat; f_lon;
   f_timezone; f_isp; f_org; f_asn; f_hostname; f_domain;
   f_isProxy; f_isVPN; f_isHosting; f_isMobile; f_isAnycast].

(** The threat signals are the fields with a default ([false]). *)
Definition is_signal (f : field) : bool :=
  match f with
  | f_isProxy | f_isVPN | f_isHosting | f_isMobile | f_isAnycast => true
  | _ => false
  end.

Definition read (f : field) (o : Full.Intelligence) : value :=
  match f with
  | f_country => Full.country (Full.location o)
  | f_countryCode => Full.countryCode (Full.location o)
  | f_region => Full.region (Full.location o)
  | f_city => Full.city (Full.location o)
  | f_zip => Full.zip (Full.location o)
  | f_lat => Full.lat (Full.location o)
  | f_lon => Full.lon (Full.location o)
  | f_timezone => Full.timezone (Full.location o)
  | f_isp => Full.isp (Full.network o)
  | f_org => Full.org (Full.network o)
  | f_asn => Full.asn (Full.network o)
  | f_hostname => Full.hostname (Full.network o)
  | f_domain => Full.domain (Full.network o)
  | f_isProxy => Full.isProxy (Full.threat o)
  | f_isVPN => Full.isVPN (Full.threat o)
  | f_isHosting => Full.isHosting (Full.threat o)
  | f_isMobile => Full.isMobile (Full.threat o)
  | f_isAnycast => Full.isAnycast (Full.threat o)
  end.

(** For each output field, the corresponding field of the sources that
    have one, in the order primary, secondary, tertiary.  A candidate is a
    computation: the coordinates of the secondary source are parsed out of
    its ["lat,lon"] string, and the ASN of the tertiary one is synthesised
    as ["AS<asn>"]. *)
Definition candidates (E : Engine) (f : field)
  (primary secondary tertiary : value) : list (exec value) :=
  match f with
  | f_country =>
      [Returns (primary ?. "country"); Returns (secondary ?. "country");
       Returns (tertiary ?. "country")]
  | f_countryCode =>
      [Returns (primary ?. "countryCode"); Returns (secondary ?. "country");
       Returns (tertiary ?. "country_code")]
  | f_region =>
      [Returns (primary ?. "regionName"); Returns (secondary ?. "region");
       Returns (tertiary ?. "region")]
  | f_city =>
      [Returns (primary ?. "city"); Returns (secondary ?. "city");
       Returns (tertiary ?. "city")]
  | f_zip =>
      [Returns (primary ?. "zip"); Returns (secondary ?. "postal");
       Returns (tertiary ?. "postal")]
  | f_lat =>
      [Returns (primary ?. "lat"); Full.loc_coordinate E secondary 0;
       Returns (tertiary ?. "latitude")]
  | f_lon =>
      [Returns (primary ?. "lon"); Full.loc_coordinate E secondary 1;
       Returns (tertiary ?. "longitude")]
  | f_timezone =>
      [Returns (primary ?. "timezone"); Returns (secondary ?. "timezone");
       Returns (tertiary ?. "timezone" ?. "id")]
  | f_isp =>
      [Returns (primary ?. "isp"); Returns (tertiary ?. "connection" ?. "isp")]
  | f_org =>
      [Returns (primary ?. "org"); Returns (secondary ?. "org");
       Returns (tertiary ?. "connection" ?. "org")]
  | f_asn =>
      [Returns (primary ?. "as"); Returns (secondary ?. "org");
       template E "AS" (tertiary ?. "connection" ?. "asn")]
  | f_hostname =>
      [Returns (primary ?. "reverse"); Returns (secondary ?. "hostname")]
  | f_domain => [Returns (tertiary ?. "connection" ?. "domain")]
  | f_isProxy | f_isVPN => [Returns (primary ?. "proxy")]
  | f_isHosting => [Returns (primary ?. "hosting")]
  | f_isMobile => [Returns (primary ?. "mobile")]
  | f_isAnycast => [Returns (secondary ?. "anycast")]
  end.

(** "Take the first source whose corresponding field is present and
    non-null": a candidate is looked at only when the ones before it are
    [undefined] or [null]; no candidate left is an absent field. *)
Fixpoint first_present (cs : list (exec value)) : exec value :=
  match cs with
  | [] => Returns VUndefined
  | c :: rest => v ← c; if is_nullish v then first_present rest else Returns v
  end.

(** The first candidate that is truthy, and the last one when none is. *)
Fixpoint first_truthy (cs : list (exec value)) : exec value :=
  match cs with
  | [] => Returns VUndefined
  | [c] => c
  | c :: rest => v ← c; if truthy v then Returns v else first_truthy rest
  end.

(** A threat signal that no source reports is [false]. *)
Definition with_default (f : field) (v : value) : value :=
  if is_signal f then v ??? VBool false else v.

(** The merged value of a field as the specification states it ... *)
Definition merged_if_present (f : field) (cs : list (exec value))
  : exec value :=
  v ← first_present cs; Returns (with_default f v).

(** ... and with truthiness deciding the fallthrough of the fields that
    have no default. *)
Definition merged_if_truthy (f : field) (cs : list (exec value))
  : exec value :=
  if is_signal f then merged_if_present f cs else first_truthy cs.

(** A field that is absent, [null] or the empty string. *)
Definition unfilled (v : value) : bool :=
  is_nullish v || match v with VStr s => String.eqb s "" | _ => false end.

(** The falsy values that are present and not the empty string: [false],
    [0], [-0] and [NaN]. *)
Definition false_or_zero (v : value) : bool :=
  negb (truthy v) && negb (unfilled v).

(** "Take the first source whose corresponding field is present, non-null
    and not the empty string", and the last candidate when there is none. *)
Fixpoint first_filled (cs : list (exec value)) : exec value :=
  match cs with
  | [] => Returns VUndefined
  | [c] => c
  | c :: rest => v ← c; if unfilled v then first_filled rest else Returns v
  end.

(** The merged value of a field when the empty string falls through too,
    for the fields that have no default. *)
Definition merged_if_filled (f : field) (cs : list (exec value))
  : exec value :=
  if is_signal f then merged_if_present f cs else first_filled cs.

(** A provider's record reports success: ip-api.com says so in [status]. *)
Definition reports_success (record : value) : bool :=
  is_string (record ?. "status") "success".

(** *** Risk scoring *)

(** The rule table: the four conditions in their order, with their points
    and the name of their factor. *)
Definition rule_table (isProxyOrVpn isHosting isMobile hasReverseDNS : bool)
  : list (bool * Z * string) :=
  [(isProxyOrVpn, 40%Z, "proxy_or_vpn");
   (isHosting, 30%Z, "datacenter_hosting");
   (isMobile, 10%Z, "mobile_carrier");
   (negb hasReverseDNS, 10%Z, "no_reverse_dns")].

Definition fired (rules : list (bool * Z * string)) : list (bool * Z * string) :=
  List.filter (fun rule => rule.1.1) rules.

Definition rule_score (rules : list (bool * Z * string)) : Z :=
  foldr Z.add 0%Z (map (fun rule => rule.1.2) (fired rules)).

Definition rule_factors (rules : list (bool * Z * string)) : list string :=
  map (fun rule => rule.2) (fired rules).

(** *** Batch *)

(** The result of one valid address, by the outcome of its fetch. *)
Definition item_for (response : settled) (ip : string) : Batch.Item :=
  match response with
  | Rejected => Batch.ItemError ip "Request failed"
  | Fulfilled data =>
      if is_nullish data then Batch.ItemError ip "Request failed"
      else if is_string (prop data "status") "success"
      then Batch.ItemData (prop data "query") (prop data "country")
             (prop data "countryCode") (prop data "city") (prop data "lat")
             (prop data "lon") (prop data "isp") (prop data "org")
             (prop data "as") (prop data "proxy") (prop data "hosting")
      else Batch.ItemError ip "Lookup failed"
  end.

(** The fetch of an item failed: it was rejected (an error, a timeout), or
    the provider did not report the status [success]. *)
Definition item_failed (response : settled) : bool :=
  match response with
  | Rejected => true
  | Fulfilled data => negb (reports_success data)
  end.

Definition is_error (item : Batch.Item) : bool :=
  match item with
  | Batch.ItemError _ _ => true
  | Batch.ItemData _ _ _ _ _ _ _ _ _ _ _ => false
  end.

(** *** Distance *)

Section Haversine.
Context (E : Engine).
#[local] Open Scope float_scope.

Definition radians (degrees : float) : float := degrees * Math_PI / 180.
Definition squared (x : float) : float := exponentiate E x 2.

(** a = sin^2(dLat/2) + cos(lat1) cos(lat2) sin^2(dLon/2),
    distanceKm = 2 R atan2(sqrt a, sqrt (1 - a)), with R = 6371. *)
Definition haversine_formula (lat1 lon1 lat2 lon2 : float) : float :=
  let dLat := radians (lat2 - lat1) in
  let dLon := radians (lon2 - lon1) in
  let a := squared (Math_sin E (dLat / 2))
           + Math_cos E (radians lat1) * Math_cos E (radians lat2)
             * squared (Math_sin E (dLon / 2)) in
  2 * 6371 * Math_atan2 E (sqrt a) (sqrt (1 - a)).

(** [round(x * 100) / 100] *)
Definition round2 (x : float) : float := Math_round E (x * 100) / 100.

End Haversine.
End Spec.

(** An engine for running the handlers on inputs that call none of its
    functions. *)
Definition idle_engine : Engine := {|
  Math_sin := fun _ => nan;
  Math_cos := fun _ => nan;
  Math_atan2 := fun _ _ => nan;
  Math_round := fun _ => nan;
  exponentiate := fun _ _ => nan;
  parseFloat := fun _ => nan;
  StringToNumber := fun _ => nan;
  Number_toString := fun _ => "NaN";
|}.

(** Documents for the examples: an object literal, and three answers of the
    providers.  ip-api.com answers the query of an address it cannot locate
    (a private range, say) with the status [fail]; it reports an unknown
    postal code as the empty string. *)
Definition object (members : list (string * value)) : value :=
  VObj (list_to_map members).

Definition ip_api_private_range : value :=
  object [("status", VStr "fail"); ("query", VStr "192.168.1.1")].

Definition ip_api_failed_with_fields : value :=
  object [("status", VStr "fail"); ("country", VStr "Atlantis");
          ("proxy", VBool true)].

Definition ip_api_without_zip : value :=
  object [("status", VStr "success"); ("country", VStr "United States");
          ("zip", VStr ""); ("proxy", VBool false); ("query", VStr "8.8.8.8")].

Definition ipinfo_with_postal : value :=
  object [("ip", VStr "8.8.8.8"); ("country", VStr "US");
          ("postal", VStr "94043")].

(** Answers of ip-api.com to the query of [threat]. *)
Definition ip_api_signals (proxy hosting mobile : bool) (reverse : string)
  : value :=
  object [("status", VStr "success"); ("proxy", VBool proxy);
          ("hosting", VBool hosting); ("mobile", VBool mobile);
          ("reverse", VStr reverse); ("query", VStr "8.8.8.8")].

(** A batch of ten addresses, the fifth of which is not an address, on an
    internet where the fetch for the eighth is rejected: that is the seventh
    request, and every other request is answered. *)
Definition ip_api_located (country : string) : value :=
  object [("status", VStr "success"); ("country", VStr country)].

Definition ten_addresses : list string :=
  ["8.8.8.1"; "8.8.8.2"; "8.8.8.3"; "8.8.8.4"; "8.8.8.256";
   "8.8.8.6"; "8.8.8.7"; "8.8.8.8"; "8.8.8.9"; "::1"].

Definition eighth_fetch_rejected : internet :=
  fun i url => if (i =? 6)%nat then Rejected
               else Fulfilled (ip_api_located "United States").

(* ===================================================================== *)
(** ** Entrypoints [overview] and [lookup] *)
(* ===================================================================== *)

Module Overview.

(** An entry of [endpoints]: its key, with [price] and [description]. *)
Record Output : Type := {
  agent : string;
  description : string;
  endpoints : list (string * (string * string));
  dataSources : list string;
  sampleIP : value;
  fetchedAt : string;
}.

Definition url : string := "http://ip-api.com/json/?fields=query".

Definition handler (net : internet) (now : string) : exec Output :=
  testIP ← await (net 0%nat url);
  sampleIP ← member testIP "query";
  Returns {|
    agent := "ip-intel-agent";
    description := "Aggregated IP intelligence from 3 data sources";
    endpoints :=
      [("lookup", ("$0.001", "Basic IP lookup (single source)"));
       ("full", ("$0.002", "Full intelligence (3 sources aggregated)"));
       ("batch", ("$0.003", "Batch lookup up to 10 IPs"));
       ("threat", ("$0.002", "Threat assessment (VPN/proxy/hosting)"));
       ("distance", ("$0.002", "Geo distance between two IPs"))];
    dataSources := ["ip-api.com"; "ipinfo.io"; "ipwho.is"];
    sampleIP := sampleIP;
    fetchedAt := now;
  |}.

End Overview.

Module Lookup.

Record Location : Type := {
  country : value;
  countryCode : value;
  region : value;
  city : value;
  zip : value;
  lat : value;
  lon : value;
  timezone : value;
}.

Record Network : Type := {
  isp : value;
  org : value;
  asn : value;
  asnName : value;
}.

Record Found : Type := {
  ip : value;
  location : Location;
  network : Network;
  source : string;
  fetchedAt : string;
}.

Inductive Output : Type :=
| Failure (error : value) (ip : string)
| Located (o : Found).

Definition url (ip : string) : string :=
  "http://ip-api.com/json/" ++ ip
  ++ "?fields=status,message,country,countryCode,region,regionName,city,zip,lat,lon,timezone,isp,org,as,asname,query".

Definition handler (net : internet) (now ip : string) : exec Output :=
  if negb (isValidIP ip)
  then Returns (Failure (VStr "Invalid IP address format") ip)
  else
    data ← await (net 0%nat (url ip));
    status ← member data "status";
    if negb (is_string status "success")
    then Returns (Failure (prop data "message" ||| VStr "Lookup failed") ip)
    else Returns (Located {|
      ip := prop data "query";
      location := {|
        country := prop data "country";
        countryCode := prop data "countryCode";
        region := prop data "regionName";
        city := prop data "city";
        zip := prop data "zip";
        lat := prop data "lat";
        lon := prop data "lon";
        timezone := prop data "timezone";
      |};
      network := {|
        isp := prop data "isp";
        org := prop data "org";
        asn := prop data "as";
        asnName := prop data "asname";
      |};
      source := "ip-api.com";
      fetchedAt := now;
    |}).

End Lookup.

(* ===================================================================== *)
(** ** Measures of expressions and of strings *)
(* ===================================================================== *)

(** The characters of a range of a class, and whether every character an
    expression can read satisfies [P]. *)
Definition chars_of_range (range : ascii * ascii) : list ascii :=
  map ascii_of_nat
    (seq (nat_of_ascii range.1)
       (S (nat_of_ascii range.2) - nat_of_ascii range.1)).

Fixpoint classes_within (P : ascii -> bool) (r : regex) : bool :=
  match r with
  | Void | Eps => true
  | Class ranges =>
      forallb (fun range => forallb P (chars_of_range range)) ranges
  | Cat r1 r2 | Alt r1 r2 => classes_within P r1 && classes_within P r2
  end.

(** Bounds on the length of the strings of an expression. *)
Fixpoint min_length (r : regex) : nat :=
  match r with
  | Void | Eps => 0
  | Class _ => 1
  | Cat r1 r2 => min_length r1 + min_length r2
  | Alt r1 r2 => Nat.min (min_length r1) (min_length r2)
  end.

Fixpoint max_length (r : regex) : nat :=
  match r with
  | Void | Eps => 0
  | Class _ => 1
  | Cat r1 r2 => max_length r1 + max_length r2
  | Alt r1 r2 => Nat.max (max_length r1) (max_length r2)
  end.

Fixpoint all_chars (P : ascii -> bool) (s : string) : bool :=
  match s with
  | EmptyString => true
  | String c rest => P c && all_chars P rest
  end.

Definition is_digit (c : ascii) : bool := in_range c ("0", "9")%char.

Definition is_hex_digit (c : ascii) : bool :=
  in_class c [("0", "9"); ("a", "f"); ("A", "F")]%char.

(** The characters of a dotted quad, and those of a colon-separated
    hexadecimal address. *)
Definition dotted_char (c : ascii) : bool := is_digit c || Ascii.eqb c ".".
Definition colon_hex_char (c : ascii) : bool :=
  is_hex_digit c || Ascii.eqb c ":".

Fixpoint count_dots (s : string) : nat :=
  match s with
  | EmptyString => 0
  | String c rest => (if Ascii.eqb c "." then 1 else 0) + count_dots rest
  end.

Definition not_comma (c : ascii) : bool := negb (Ascii.eqb c ",").

(** The groups of a colon-separated address: the pieces that cutting it at
    every colon gives. *)
Fixpoint colon_groups (s : string) : list string :=
  match s with
  | EmptyString => [EmptyString]
  | String c rest =>
      if Ascii.eqb c ":" then EmptyString :: colon_groups rest
      else match colon_groups rest with
           | g :: gs => String c g :: gs
           | [] => [String c EmptyString]
           end
  end.

(** A group that holds at least one character. *)
Definition filled (g : string) : Prop := g <> "".

(** The number a string of decimal digits writes. *)
Fixpoint digits_value (acc : nat) (s : string) : nat :=
  match s with
  | EmptyString => acc
  | String c rest => digits_value (10 * acc + (nat_of_ascii c - 48)) rest
  end.

(** One to three decimal digits that write a number up to 255. *)
Definition octet_text (s : string) : bool :=
  (1 <=? String.length s)%nat && (String.length s <=? 3)%nat
  && all_chars is_digit s && (digits_value 0 s <=? 255)%nat.

(** The strings of [n] decimal digits. *)
Definition digit_chars : list ascii := chars_of_range ("0", "9")%char.

Fixpoint digit_strings (n : nat) : list string :=
  match n with
  | O => [EmptyString]
  | S k => flat_map (fun c => map (String c) (digit_strings k)) digit_chars
  end.

(** Points of a risk factor, by its name. *)
Definition factor_points (factor : string) : Z :=
  if String.eqb factor "proxy_or_vpn" then 40
  else if String.eqb factor "datacenter_hosting" then 30
  else if String.eqb factor "mobile_carrier" then 10
  else if String.eqb factor "no_reverse_dns" then 10
  else 0.

(** The internet as the handler sees it after a first batch has sent [k]
    requests. *)
Definition later (k : nat) (net : internet) : internet :=
  fun i url => net (k + i)%nat url.

(** An engine of the small-angle approximations: sin x = x, cos x = 1,
    atan2(y, x) = y / x, and the square by one multiplication. *)
Definition small_angle_engine : Engine := {|
  Math_sin := fun x => x;
  Math_cos := fun _ => 1%float;
  Math_atan2 := fun y x => (y / x)%float;
  Math_round := fun x => x;
  exponentiate := fun x _ => (x * x)%float;
  parseFloat := fun _ => nan;
  StringToNumber := fun _ => nan;
  Number_toString := fun _ => "NaN";
|}.

(* ===================================================================== *)
(** ** Properties *)
(* ===================================================================== *)

(** *** The operators *)

Lemma exec_or_throws (e : js_error) (b : exec value) :
  Throws e |||! b = Throws e.
Proof. reflexivity. Qed.

Lemma exec_or_returns (v : value) (b : exec value) :
  Returns v |||! b = if truthy v then Returns v else b.
Proof. reflexivity. Qed.

Lemma js_or_first_truthy2 (a b : value) :
  Returns (a ||| b) = Spec.first_truthy [Returns a; Returns b].
Proof. unfold js_or; simpl. destruct (truthy a); reflexivity. Qed.

Lemma js_or_first_truthy3 (a b c : value) :
  Returns (a ||| b ||| c) = Spec.first_truthy [Returns a; Returns b; Returns c].
Proof.
  unfold js_or; simpl.
  destruct (truthy a) eqn:Ha; simpl; rewrite ?Ha; [reflexivity|].
  destruct (truthy b) eqn:Hb; simpl; rewrite ?Hb; reflexivity.
Qed.

Lemma exec_or_first_truthy3 (a b c : exec value) :
  a |||! b |||! c = Spec.first_truthy [a; b; c].
Proof.
  destruct a as [v|e]; [|reflexivity].
  rewrite exec_or_returns. simpl.
  destruct (truthy v) eqn:Hv; [|reflexivity].
  rewrite exec_or_returns, Hv. reflexivity.
Qed.

(** What [first_truthy] picks: the candidates before the chosen one were
    evaluated and are falsy, and the chosen one is truthy or the last. *)
Lemma first_truthy_skips_falsy (v : value) (cs : list (exec value)) :
  truthy v = false -> cs <> [] ->
  Spec.first_truthy (Returns v :: cs) = Spec.first_truthy cs.
Proof.
  intros Hv Hcs. destruct cs as [|c cs]; [congruence|].
  simpl. rewrite Hv. reflexivity.
Qed.

Lemma first_truthy_takes_truthy (v : value) (cs : list (exec value)) :
  truthy v = true -> Spec.first_truthy (Returns v :: cs) = Returns v.
Proof.
  intros Hv. destruct cs as [|c cs]; [reflexivity|].
  simpl. rewrite Hv. reflexivity.
Qed.

Lemma first_truthy_pick (pre post : list value) (v : value) :
  Forall (fun u => truthy u = false) pre -> truthy v = true ->
  Spec.first_truthy (map Returns pre ++ Returns v :: map Returns post)%list
  = Returns v.
Proof.
  intros Hpre Hv. induction Hpre as [|u pre Hu _ IH]; simpl app.
  - apply first_truthy_takes_truthy, Hv.
  - change (map Returns (u :: pre)) with (Returns u :: map Returns pre).
    simpl app. rewrite first_truthy_skips_falsy; auto.
    destruct (map Returns pre); discriminate.
Qed.

Lemma first_truthy_none (pre : list value) (v : value) :
  Forall (fun u => truthy u = false) pre ->
  Spec.first_truthy (map Returns pre ++ [Returns v])%list = Returns v.
Proof.
  intros Hpre. induction Hpre as [|u pre Hu _ IH]; [reflexivity|].
  change (map Returns (u :: pre)) with (Returns u :: map Returns pre).
  simpl app. rewrite first_truthy_skips_falsy; auto.
  destruct (map Returns pre); discriminate.
Qed.

(** A truthy value is present; where every candidate is truthy or absent,
    and one is truthy, the two rules pick the same value. *)
Lemma truthy_not_nullish (v : value) : truthy v = true -> is_nullish v = false.
Proof. destruct v; simpl; congruence. Qed.

Lemma first_present_agrees (vs : list value) :
  Forall (fun v => truthy v = negb (is_nullish v)) vs ->
  Exists (fun v => truthy v = true) vs ->
  Spec.first_truthy (map Returns vs) = Spec.first_present (map Returns vs).
Proof.
  intros Hall Hex. induction Hall as [|v vs Hv Hall IH]; [inversion Hex|].
  change (map Returns (v :: vs)) with (Returns v :: map Returns vs).
  destruct (truthy v) eqn:Htv.
  - rewrite first_truthy_takes_truthy by assumption.
    simpl. rewrite (truthy_not_nullish v Htv). reflexivity.
  - assert (Hn : is_nullish v = true) by (destruct (is_nullish v); simpl in Hv; congruence).
    inversion Hex as [? ? Hhead|? ? Htail]; subst; [congruence|].
    rewrite first_truthy_skips_falsy; auto.
    + simpl. rewrite Hn. apply IH, Htail.
    + destruct vs; [inversion Htail|discriminate].
Qed.

(** *** [RegExp.test] decides the language of an expression *)

Lemma append_empty_inv (s1 s2 : string) :
  s1 ++ s2 = "" -> s1 = "" /\ s2 = "".
Proof. destruct s1; simpl; [auto|discriminate]. Qed.

Lemma append_cons_inv (s1 s2 s : string) (c : ascii) :
  s1 ++ s2 = String c s ->
  (s1 = "" /\ s2 = String c s)
  \/ (exists s1', s1 = String c s1' /\ s = s1' ++ s2).
Proof.
  destruct s1 as [|c' s1']; simpl; [auto|].
  intros [= -> <-]. right. eauto.
Qed.

Lemma nullable_Matches (r : regex) : nullable r = true <-> Matches r "".
Proof.
  split.
  - induction r as [| |ranges|r1 IH1 r2 IH2|r1 IH1 r2 IH2]; simpl;
      try discriminate.
    + intros _. constructor.
    + intros [H1 H2]%andb_prop. change "" with ("" ++ ""). constructor; auto.
    + intros [H|H]%orb_prop; [apply MAltL|apply MAltR]; auto.
  - intros H. remember "" as w eqn:Hw.
    induction H as [|c ranges Hc|r1 r2 s1 s2 _ IH1 _ IH2|r1 r2 s _ IH|r1 r2 s _ IH];
      simpl.
    + reflexivity.
    + discriminate Hw.
    + apply append_empty_inv in Hw as [-> ->]. rewrite IH1, IH2; reflexivity.
    + rewrite IH by assumption. reflexivity.
    + rewrite IH by assumption. apply orb_true_r.
Qed.

Lemma deriv_Matches (c : ascii) (r : regex) (s : string) :
  Matches (deriv c r) s <-> Matches r (String c s).
Proof.
  split.
  - revert s.
    induction r as [| |ranges|r1 IH1 r2 IH2|r1 IH1 r2 IH2]; simpl; intros s H.
    + inversion H.
    + inversion H.
    + destruct (in_class c ranges) eqn:Hc; inversion H; subst.
      constructor. exact Hc.
    + assert (Hleft : forall w, Matches (Cat (deriv c r1) r2) w ->
                                Matches (Cat r1 r2) (String c w)).
      { intros w Hw. inversion Hw as [| |? ? s1 s2 H1 H2| |]; subst.
        change (String c (s1 ++ s2)) with (String c s1 ++ s2).
        constructor; auto. }
      destruct (nullable r1) eqn:Hn; [|auto].
      inversion H as [| | |? ? ? Hl|? ? ? Hr]; subst; [auto|].
      change (String c s) with ("" ++ String c s).
      constructor; [apply nullable_Matches, Hn|auto].
    + inversion H; subst; [apply MAltL|apply MAltR]; auto.
  - intros H. remember (String c s) as w eqn:Hw. revert s Hw.
    induction H as [|c' ranges Hc|r1 r2 s1 s2 H1 IH1 H2 IH2|r1 r2 w _ IH|r1 r2 w _ IH];
      intros s Hw; simpl.
    + discriminate Hw.
    + injection Hw as -> <-. rewrite Hc. constructor.
    + apply append_cons_inv in Hw as [[-> ->]|(s1' & -> & ->)].
      * apply nullable_Matches in H1. rewrite H1. apply MAltR. auto.
      * assert (Matches (Cat (deriv c r1) r2) (s1' ++ s2))
          by (constructor; auto).
        destruct (nullable r1); [apply MAltL|]; assumption.
    + apply MAltL. auto.
    + apply MAltR. auto.
Qed.

Lemma test_Matches (r : regex) (s : string) :
  test r s = true <-> Matches r s.
Proof.
  revert r. induction s as [|c s IH]; intros r; simpl.
  - apply nullable_Matches.
  - rewrite IH. apply deriv_Matches.
Qed.

(** A string splits into pieces that hold no comma and that, joined by
    commas, give the string back. *)
Lemma split_comma_not_nil (s : string) : split_comma s <> [].
Proof.
  induction s as [|c s IH]; simpl; [discriminate|].
  destruct (Ascii.eqb c ","); [discriminate|].
  destruct (split_comma s); [contradiction|discriminate].
Qed.

Lemma join_split_comma (s : string) : join_comma (split_comma s) = s.
Proof.
  induction s as [|c s IH]; [reflexivity|]. simpl.
  pose proof (split_comma_not_nil s) as Hne.
  destruct (Ascii.eqb_spec c ",") as [->|_].
  - destruct (split_comma s) as [|piece pieces]; [contradiction|].
    change (join_comma ("" :: piece :: pieces))
      with ("" ++ "," ++ join_comma (piece :: pieces)).
    rewrite IH. reflexivity.
  - destruct (split_comma s) as [|piece pieces]; [contradiction|].
    destruct pieces as [|piece' pieces].
    + simpl in *. congruence.
    + change (join_comma (String c piece :: piece' :: pieces))
        with (String c (piece ++ "," ++ join_comma (piece' :: pieces))).
      change (join_comma (piece :: piece' :: pieces))
        with (piece ++ "," ++ join_comma (piece' :: pieces)) in IH.
      rewrite IH. reflexivity.
Qed.

Lemma isValidIP_examples :
  isValidIP "8.8.8.8" = true /\ isValidIP "255.255.255.255" = true
  /\ isValidIP "256.1.1.1" = false /\ isValidIP "1.2.3" = false
  /\ isValidIP "2001:0db8:85a3:0000:0000:8a2e:0370:7334" = true
  /\ isValidIP "::" = true /\ isValidIP "::1" = true
  /\ isValidIP "fe80::" = true /\ isValidIP "1::1" = false
  /\ isValidIP "" = false.
Proof. repeat split; vm_compute; reflexivity. Qed.

(** *** Entrypoint [full] *)

Lemma bind_returns_inv {A B : Type} (m : exec A) (k : A -> exec B) (b : B) :
  m ≫= k = Returns b -> exists a, m = Returns a /\ k a = Returns b.
Proof. destruct m as [a|e]; simpl; [eauto|discriminate]. Qed.

Lemma merge_location_inv (E : Engine) (p s t : value) (l : Full.Location) :
  Full.merge_location E p s t = Returns l ->
  Spec.first_truthy (Spec.candidates E Spec.f_lat p s t) = Returns (Full.lat l)
  /\ Spec.first_truthy (Spec.candidates E Spec.f_lon p s t) = Returns (Full.lon l)
  /\ Full.country l = p ?. "country" ||| s ?. "country" ||| t ?. "country"
  /\ Full.countryCode l
     = p ?. "countryCode" ||| s ?. "country" ||| t ?. "country_code"
  /\ Full.region l = p ?. "regionName" ||| s ?. "region" ||| t ?. "region"
  /\ Full.city l = p ?. "city" ||| s ?. "city" ||| t ?. "city"
  /\ Full.zip l = p ?. "zip" ||| s ?. "postal" ||| t ?. "postal"
  /\ Full.timezone l
     = p ?. "timezone" ||| s ?. "timezone" ||| t ?. "timezone" ?. "id".
Proof.
  unfold Full.merge_location. intros H.
  apply bind_returns_inv in H as (la & Hla & H).
  apply bind_returns_inv in H as (lo & Hlo & H).
  injection H as <-. simpl.
  rewrite exec_or_first_truthy3 in Hla, Hlo. auto 10.
Qed.

Lemma merge_network_inv (E : Engine) (p s t : value) (n : Full.Network) :
  Full.merge_network E p s t = Returns n ->
  Spec.first_truthy (Spec.candidates E Spec.f_asn p s t) = Returns (Full.asn n)
  /\ Full.isp n = p ?. "isp" ||| t ?. "connection" ?. "isp"
  /\ Full.org n = p ?. "org" ||| s ?. "org" ||| t ?. "connection" ?. "org"
  /\ Full.hostname n = p ?. "reverse" ||| s ?. "hostname"
  /\ Full.domain n = t ?. "connection" ?. "domain".
Proof.
  unfold Full.merge_network. intros H.
  apply bind_returns_inv in H as (a & Ha & H).
  injection H as <-. simpl.
  rewrite exec_or_first_truthy3 in Ha. auto.
Qed.

Lemma merge_inv (E : Engine) (now ip : string) (a b c : settled)
  (o : Full.Intelligence) :
  Full.merge E now ip a b c = Returns o ->
  let p := Full.value_or_null a in
  let s := Full.value_or_null b in
  let t := Full.value_or_null c in
  Full.merge_location E p s t = Returns (Full.location o)
  /\ Full.merge_network E p s t = Returns (Full.network o)
  /\ Full.threat o = Full.merge_threat p s
  /\ Full.confidence o = Full.merge_confidence p s t
  /\ Full.ip o = ip
  /\ Full.sources o = ["ip-api.com"; "ipinfo.io"; "ipwho.is"]
  /\ Full.fetchedAt o = now.
Proof.
  unfold Full.merge. intros H.
  apply bind_returns_inv in H as (l & Hl & H).
  apply bind_returns_inv in H as (n & Hn & H).
  injection H as <-. simpl. auto 10.
Qed.

(** The handler returns exactly when no candidate of a coordinate or of the
    ASN raises before a truthy one is found. *)
Lemma merge_returns (E : Engine) (now ip : string) (a b c : settled) :
  let p := Full.value_or_null a in
  let s := Full.value_or_null b in
  let t := Full.value_or_null c in
  (exists o, Full.merge E now ip a b c = Returns o)
  <-> (exists la lo asn,
        Spec.first_truthy (Spec.candidates E Spec.f_lat p s t) = Returns la
        /\ Spec.first_truthy (Spec.candidates E Spec.f_lon p s t) = Returns lo
        /\ Spec.first_truthy (Spec.candidates E Spec.f_asn p s t) = Returns asn).
Proof.
  intros p s t. split.
  - intros [o H]. apply merge_inv in H as (Hl & Hn & _).
    apply merge_location_inv in Hl as (Hla & Hlo & _).
    apply merge_network_inv in Hn as (Ha & _). eauto 10.
  - intros (la & lo & asn & Hla & Hlo & Ha).
    unfold Full.merge, Full.merge_location, Full.merge_network.
    fold p s t. rewrite !exec_or_first_truthy3.
    simpl in Hla, Hlo, Ha. simpl. rewrite Hla. simpl. rewrite Hlo. simpl.
    rewrite Ha. simpl. eauto.
Qed.

(** The handler answers an address that [isValidIP] refuses without a
    fetch, and otherwise merges how its three requests settle. *)
Lemma full_handler_merged (E : Engine) (net : internet) (now ip : string)
  (o : Full.Intelligence) :
  Full.handler E net now ip = Returns (Full.Merged o)
  <-> isValidIP ip = true
      /\ Full.merge E now ip (net 0%nat (Full.url_ip_api ip))
           (net 1%nat (Full.url_ipinfo ip)) (net 2%nat (Full.url_ipwho ip))
         = Returns o.
Proof.
  unfold Full.handler. destruct (isValidIP ip); simpl.
  - split.
    + intros H. apply bind_returns_inv in H as (o' & Ho' & [= ->]). auto.
    + intros [_ ->]. reflexivity.
  - split; [discriminate|]. intros [H _]. discriminate H.
Qed.

Lemma full_handler_invalid (E : Engine) (net : internet) (now ip : string) :
  isValidIP ip = false ->
  Full.handler E net now ip
  = Returns (Full.Failure "Invalid IP address format" ip).
Proof. unfold Full.handler. intros ->. reflexivity. Qed.

Lemma coalesce_is_default (f : Spec.field) (x : value) :
  Spec.is_signal f = true ->
  Returns (x ??? VBool false) = Spec.merged_if_present f [Returns x].
Proof.
  intros Hf. unfold Spec.merged_if_present, Spec.with_default, js_coalesce.
  rewrite Hf. simpl. destruct (is_nullish x) eqn:Hx; simpl; rewrite ?Hx; reflexivity.
Qed.

(** The merged record in terms of the operators of the handler: [||] over
    the candidates of a location or network field, [??] with the default
    for a threat signal. *)
Lemma merge_reads_by_operator (E : Engine) (now ip : string)
  (a b c : settled) (o : Full.Intelligence) (f : Spec.field) :
  Full.merge E now ip a b c = Returns o ->
  Returns (Spec.read f o)
  = Spec.merged_if_truthy f
      (Spec.candidates E f (Full.value_or_null a) (Full.value_or_null b)
         (Full.value_or_null c)).
Proof.
  intros H. apply merge_inv in H as (Hl & Hn & Ht & _).
  apply merge_location_inv in Hl
    as (Hla & Hlo & Hcountry & Hcode & Hregion & Hcity & Hzip & Htz).
  apply merge_network_inv in Hn as (Hasn & Hisp & Horg & Hhost & Hdom).
  destruct f; unfold Spec.merged_if_truthy, Spec.read; simpl Spec.is_signal;
    cbv iota;
    rewrite ?Hcountry, ?Hcode, ?Hregion, ?Hcity, ?Hzip, ?Htz, ?Hisp, ?Horg,
      ?Hhost, ?Hdom, ?Ht;
    try (symmetry; assumption);
    try apply js_or_first_truthy3;
    try apply js_or_first_truthy2;
    try (apply coalesce_is_default; reflexivity);
    reflexivity.
Qed.

Lemma full_merge_example_zip (E : Engine) (now : string) :
  exists o,
    Full.merge E now "8.8.8.8" (Fulfilled ip_api_without_zip)
      (Fulfilled ipinfo_with_postal) Rejected = Returns o
    /\ Full.zip (Full.location o) = VStr "94043"
    /\ Full.country (Full.location o) = VStr "United States"
    /\ Full.isProxy (Full.threat o) = VBool false.
Proof. eexists. split; [vm_compute; reflexivity|]. repeat split. Qed.

(** C1 (as stated) fails.  ip-api.com answers with the postal code [""],
    ipinfo.io with ["94043"], the third fetch is rejected: the first source
    whose field is present and non-null is the primary one, and the merged
    [zip] is the secondary's ["94043"]. *)
Lemma full_merge_not_first_present :
  ~ (forall (E : Engine) (now ip : string) (a b c : settled)
            (o : Full.Intelligence) (f : Spec.field),
        Full.merge E now ip a b c = Returns o ->
        Returns (Spec.read f o)
        = Spec.merged_if_present f
            (Spec.candidates E f (Full.value_or_null a) (Full.value_or_null b)
               (Full.value_or_null c))).
Proof.
  intros claim.
  destruct (full_merge_example_zip idle_engine "") as (o & Ho & Hzip & _).
  specialize (claim _ _ _ _ _ _ _ Spec.f_zip Ho).
  simpl in claim. rewrite Hzip in claim.
  vm_compute in claim. discriminate claim.
Qed.

Lemma false_or_zero_cases (v : value) :
  Spec.false_or_zero v = false -> truthy v = true \/ Spec.unfilled v = true.
Proof.
  unfold Spec.false_or_zero.
  destruct (truthy v), (Spec.unfilled v); simpl; auto; discriminate.
Qed.

Lemma truthy_is_filled (v : value) : truthy v = true -> Spec.unfilled v = false.
Proof.
  unfold Spec.unfilled. destruct v as [| | | |s| | |]; simpl; try discriminate;
    try reflexivity.
  destruct (String.eqb s ""); [discriminate|reflexivity].
Qed.

Lemma unfilled_is_falsy (v : value) : Spec.unfilled v = true -> truthy v = false.
Proof.
  intros H. destruct (truthy v) eqn:Hv; [|reflexivity].
  rewrite (truthy_is_filled v Hv) in H. discriminate H.
Qed.

(** Truthiness and emptiness pick the same candidate unless the first filled
    one is a [false], a zero or [NaN]. *)
Lemma first_truthy_is_first_filled (cs : list (exec value)) :
  (forall v, Spec.first_filled cs = Returns v -> Spec.false_or_zero v = false) ->
  Spec.first_truthy cs = Spec.first_filled cs.
Proof.
  induction cs as [|c [|c' rest] IH]; intros Hpick; [reflexivity..|].
  change (Spec.first_truthy (c :: c' :: rest))
    with (v ← c; if truthy v then Returns v
                 else Spec.first_truthy (c' :: rest)).
  change (Spec.first_filled (c :: c' :: rest))
    with (v ← c; if Spec.unfilled v then Spec.first_filled (c' :: rest)
                 else Returns v) in Hpick |- *.
  destruct c as [v|e]; [|reflexivity]. simpl in Hpick |- *.
  destruct (Spec.unfilled v) eqn:Hv.
  - rewrite (unfilled_is_falsy v Hv). apply IH, Hpick.
  - destruct (false_or_zero_cases v (Hpick v eq_refl)) as [Ht|Hu];
      [rewrite Ht; reflexivity|congruence].
Qed.

(** C1 (as amended).  In the merged output of [full], a location or network
    field is taken from the first source, in the order primary, secondary,
    tertiary, whose corresponding field is present, non-null and not the
    empty string (from the last source when there is none), whenever that
    field is not a [false], a zero or [NaN]; a threat signal is read from
    its single source, where a present [false] wins and only [undefined]
    and [null] give way to the default [false]. *)
Theorem full_merge_takes_first_filled (E : Engine) (now ip : string)
  (a b c : settled) (o : Full.Intelligence) (f : Spec.field) :
  Full.merge E now ip a b c = Returns o ->
  (Spec.is_signal f = false ->
   forall v,
     Spec.first_filled
       (Spec.candidates E f (Full.value_or_null a) (Full.value_or_null b)
          (Full.value_or_null c)) = Returns v ->
     Spec.false_or_zero v = false) ->
  Returns (Spec.read f o)
  = Spec.merged_if_filled f
      (Spec.candidates E f (Full.value_or_null a) (Full.value_or_null b)
         (Full.value_or_null c)).
Proof.
  intros H Hpick.
  rewrite (merge_reads_by_operator E now ip a b c o f H).
  unfold Spec.merged_if_truthy, Spec.merged_if_filled.
  destruct (Spec.is_signal f); [reflexivity|].
  apply first_truthy_is_first_filled, Hpick. reflexivity.
Qed.

Lemma full_merge_takes_first_filled_witness :
  exists o,
    Full.merge idle_engine "" "8.8.8.8" (Fulfilled ip_api_without_zip)
      (Fulfilled ipinfo_with_postal) Rejected = Returns o
    /\ Returns (Spec.read Spec.f_zip o)
       = Spec.merged_if_filled Spec.f_zip
           (Spec.candidates idle_engine Spec.f_zip ip_api_without_zip
              ipinfo_with_postal VNull)
    /\ Spec.read Spec.f_zip o = VStr "94043".
Proof.
  eexists. split; [vm_compute; reflexivity|]. split; [|reflexivity].
  apply (full_merge_takes_first_filled idle_engine "" "8.8.8.8"
           (Fulfilled ip_api_without_zip) (Fulfilled ipinfo_with_postal)
           Rejected).
  - vm_compute; reflexivity.
  - intros _ v Hv. vm_compute in Hv. injection Hv as <-. reflexivity.
Defined.

(** The three sources are always the ones queried, and the ones counted as
    having responded are the fulfilled fetches with a truthy body. *)
Lemma merge_confidence_counts (E : Engine) (now ip : string)
  (a b c : settled) (o : Full.Intelligence) :
  Full.merge E now ip a b c = Returns o ->
  Full.sourcesQueried (Full.confidence o) = 3%nat
  /\ Full.sourcesResponded (Full.confidence o)
     = length (List.filter (fun x => truthy (Full.value_or_null x)) [a; b; c]).
Proof.
  intros H. apply merge_inv in H as (_ & _ & _ & Hc & _). rewrite Hc.
  split; [reflexivity|]. simpl.
  destruct (truthy (Full.value_or_null a)), (truthy (Full.value_or_null b)),
    (truthy (Full.value_or_null c)); reflexivity.
Qed.

(** C2 (the code departs from it).  A fulfilled answer of ip-api.com with
    the status [fail] is merged like any other: its fields reach the output,
    where a rejected fetch leaves them to the defaults.  The failure body
    that ip-api.com really sends holds none of the merged fields, and still
    the output is not the one of an absent source: it is counted in
    [sourcesResponded]. *)
Lemma full_merge_uses_failed_record (E : Engine) (now ip : string) :
  Spec.reports_success ip_api_failed_with_fields = false
  /\ Spec.reports_success ip_api_private_range = false
  /\ exists absent with_fields real,
       Full.merge E now ip Rejected Rejected Rejected = Returns absent
       /\ Full.merge E now ip (Fulfilled ip_api_failed_with_fields)
            Rejected Rejected = Returns with_fields
       /\ Full.merge E now ip (Fulfilled ip_api_private_range)
            Rejected Rejected = Returns real
       /\ Full.country (Full.location absent) = VUndefined
       /\ Full.country (Full.location with_fields) = VStr "Atlantis"
       /\ Full.isProxy (Full.threat absent) = VBool false
       /\ Full.isProxy (Full.threat with_fields) = VBool true
       /\ Full.location real = Full.location absent
       /\ Full.network real = Full.network absent
       /\ Full.threat real = Full.threat absent
       /\ Full.sourcesResponded (Full.confidence absent) = 0%nat
       /\ Full.sourcesResponded (Full.confidence with_fields) = 1%nat
       /\ Full.sourcesResponded (Full.confidence real) = 1%nat.
Proof.
  split; [reflexivity|]. split; [reflexivity|].
  do 3 eexists.
  split; [vm_compute; reflexivity|].
  split; [vm_compute; reflexivity|].
  split; [vm_compute; reflexivity|].
  repeat split.
Qed.

(** C3 (the code departs from it).  For the address 192.168.1.1 ip-api.com
    answers with the status [fail]; the two other fetches are rejected.  No
    source returned a success status, and [sourcesResponded] is 1. *)
Lemma full_counts_failed_record (E : Engine) (now : string) :
  isValidIP "192.168.1.1" = true
  /\ Spec.reports_success ip_api_private_range = false
  /\ exists o,
       Full.merge E now "192.168.1.1" (Fulfilled ip_api_private_range)
         Rejected Rejected = Returns o
       /\ Full.sourcesQueried (Full.confidence o) = 3%nat
       /\ Full.sourcesResponded (Full.confidence o) = 1%nat.
Proof.
  split; [vm_compute; reflexivity|]. split; [reflexivity|].
  eexists. split; [vm_compute; reflexivity|]. split; reflexivity.
Qed.

(** C10.  In the output of [full] no threat signal is ever [undefined] or
    [null]; with the primary source absent (its fetch rejected, or fulfilled
    with [null]) [isProxy], [isVPN], [isHosting] and [isMobile] are [false];
    with the secondary source absent [isAnycast] is [false]; and [isVPN] is
    always the value of [isProxy]. *)
Theorem full_threat_signals_never_absent (E : Engine) (now ip : string)
  (a b c : settled) (o : Full.Intelligence) :
  Full.merge E now ip a b c = Returns o ->
  let t := Full.threat o in
  (is_nullish (Full.isProxy t) = false
   /\ is_nullish (Full.isVPN t) = false
   /\ is_nullish (Full.isHosting t) = false
   /\ is_nullish (Full.isMobile t) = false
   /\ is_nullish (Full.isAnycast t) = false)
  /\ (is_nullish (Full.value_or_null a) = true ->
      Full.isProxy t = VBool false /\ Full.isVPN t = VBool false
      /\ Full.isHosting t = VBool false /\ Full.isMobile t = VBool false)
  /\ (is_nullish (Full.value_or_null b) = true ->
      Full.isAnycast t = VBool false)
  /\ Full.isVPN t = Full.isProxy t.
Proof.
  intros H t. subst t. apply merge_inv in H as (_ & _ & Ht & _). rewrite Ht.
  assert (Hdef : forall v, is_nullish (v ??? VBool false) = false).
  { intros v. unfold js_coalesce. destruct (is_nullish v) eqn:Hv; auto. }
  assert (Habs : forall v k, is_nullish v = true -> v ?. k ??? VBool false = VBool false).
  { intros v k Hv. unfold opt_chain. rewrite Hv. reflexivity. }
  simpl. repeat split; auto.
  all: intros Hn; rewrite ?(Habs _ _ Hn); auto.
Qed.

Lemma full_threat_signals_never_absent_witness :
  exists o,
    Full.merge idle_engine "" "8.8.8.8" Rejected Rejected
      (Fulfilled ipinfo_with_postal) = Returns o
    /\ Full.isProxy (Full.threat o) = VBool false
    /\ Full.isAnycast (Full.threat o) = VBool false
    /\ Full.isVPN (Full.threat o) = Full.isProxy (Full.threat o).
Proof.
  eexists. split; [vm_compute; reflexivity|].
  destruct (full_threat_signals_never_absent idle_engine "" "8.8.8.8"
              Rejected Rejected (Fulfilled ipinfo_with_postal) _ eq_refl)
    as (_ & Hprimary & Hsecondary & Hvpn).
  split; [apply Hprimary; reflexivity|].
  split; [apply Hsecondary; reflexivity|exact Hvpn].
Defined.

(** *** Entrypoint [threat] *)

Lemma riskLevel_high (riskScore : Z) :
  ThreatAssessment.riskLevel riskScore = "high" <-> (50 <= riskScore)%Z.
Proof.
  unfold ThreatAssessment.riskLevel.
  destruct (Z.leb_spec 50 riskScore); [tauto|].
  destruct (Z.leb_spec 20 riskScore); split; (discriminate || lia).
Qed.

Lemma riskLevel_medium (riskScore : Z) :
  ThreatAssessment.riskLevel riskScore = "medium"
  <-> (20 <= riskScore < 50)%Z.
Proof.
  unfold ThreatAssessment.riskLevel.
  destruct (Z.leb_spec 50 riskScore); [split; (discriminate || lia)|].
  destruct (Z.leb_spec 20 riskScore); split; (discriminate || lia || auto).
Qed.

Lemma riskLevel_low (riskScore : Z) :
  ThreatAssessment.riskLevel riskScore = "low" <-> (riskScore < 20)%Z.
Proof.
  unfold ThreatAssessment.riskLevel.
  destruct (Z.leb_spec 50 riskScore); [split; (discriminate || lia)|].
  destruct (Z.leb_spec 20 riskScore); split; (discriminate || lia || auto).
Qed.

(** C4.  The risk score is the sum of the points of the rules that fire,
    [riskFactors] lists their names in the order of the table (proxy/VPN 40,
    hosting 30, mobile 10, no reverse DNS 10), the level is [high] from 50
    on, [medium] from 20 to 49 and [low] below 20; all four signals give 90
    and [high], none gives 0 and [low], a missing reverse DNS alone gives 10
    and [low]. *)
Theorem risk_follows_rule_table (data : value) :
  let rules :=
    Spec.rule_table (truthy (prop data "proxy")) (truthy (prop data "hosting"))
      (truthy (prop data "mobile")) (truthy (prop data "reverse")) in
  let risk := ThreatAssessment.assess data in
  ThreatAssessment.score risk = Spec.rule_score rules
  /\ ThreatAssessment.factors risk = Spec.rule_factors rules
  /\ (ThreatAssessment.level risk = "high"
      <-> (50 <= ThreatAssessment.score risk)%Z)
  /\ (ThreatAssessment.level risk = "medium"
      <-> (20 <= ThreatAssessment.score risk < 50)%Z)
  /\ (ThreatAssessment.level risk = "low"
      <-> (ThreatAssessment.score risk < 20)%Z)
  /\ ThreatAssessment.riskLevel 20 = "medium"
  /\ ThreatAssessment.riskLevel 50 = "high"
  /\ ThreatAssessment.assess (ip_api_signals true true true "")
     = {| ThreatAssessment.score := 90;
          ThreatAssessment.level := "high";
          ThreatAssessment.factors :=
            ["proxy_or_vpn"; "datacenter_hosting"; "mobile_carrier";
             "no_reverse_dns"] |}
  /\ ThreatAssessment.assess (ip_api_signals false false false "dns.google")
     = {| ThreatAssessment.score := 0;
          ThreatAssessment.level := "low";
          ThreatAssessment.factors := [] |}
  /\ ThreatAssessment.assess (ip_api_signals false false false "")
     = {| ThreatAssessment.score := 10;
          ThreatAssessment.level := "low";
          ThreatAssessment.factors := ["no_reverse_dns"] |}.
Proof.
  intros rules risk. subst rules risk.
  split; [|split; [|split; [|split; [|split]]]].
  - unfold ThreatAssessment.assess, ThreatAssessment.step.
    destruct (truthy (prop data "proxy")), (truthy (prop data "hosting")),
      (truthy (prop data "mobile")), (truthy (prop data "reverse"));
      reflexivity.
  - unfold ThreatAssessment.assess, ThreatAssessment.step.
    destruct (truthy (prop data "proxy")), (truthy (prop data "hosting")),
      (truthy (prop data "mobile")), (truthy (prop data "reverse"));
      reflexivity.
  - apply riskLevel_high.
  - apply riskLevel_medium.
  - apply riskLevel_low.
  - repeat split; vm_compute; reflexivity.
Qed.

(** C7.  A document that shows every risk condition of another one (a
    truthy [proxy], [hosting] or [mobile], a falsy [reverse]) has a score at
    least as high. *)
Theorem risk_score_monotone (data1 data2 : value) :
  (truthy (prop data1 "proxy") = true -> truthy (prop data2 "proxy") = true) ->
  (truthy (prop data1 "hosting") = true ->
   truthy (prop data2 "hosting") = true) ->
  (truthy (prop data1 "mobile") = true -> truthy (prop data2 "mobile") = true) ->
  (truthy (prop data1 "reverse") = false ->
   truthy (prop data2 "reverse") = false) ->
  (ThreatAssessment.score (ThreatAssessment.assess data1)
   <= ThreatAssessment.score (ThreatAssessment.assess data2))%Z.
Proof.
  unfold ThreatAssessment.assess, ThreatAssessment.step.
  intros Hproxy Hhosting Hmobile Hreverse.
  destruct (truthy (prop data1 "proxy")), (truthy (prop data1 "hosting")),
    (truthy (prop data1 "mobile")), (truthy (prop data1 "reverse"));
    rewrite ?(Hproxy eq_refl), ?(Hhosting eq_refl), ?(Hmobile eq_refl),
      ?(Hreverse eq_refl);
    destruct (truthy (prop data2 "proxy")), (truthy (prop data2 "hosting")),
      (truthy (prop data2 "mobile")), (truthy (prop data2 "reverse"));
    simpl; lia.
Qed.

Lemma risk_score_monotone_witness :
  (ThreatAssessment.score
     (ThreatAssessment.assess (ip_api_signals false true false "dns.google"))
   <= ThreatAssessment.score
        (ThreatAssessment.assess (ip_api_signals true true false "")))%Z.
Proof.
  apply risk_score_monotone; vm_compute; intros H;
    first [reflexivity | discriminate H].
Defined.

(** *** Entrypoint [batch] *)

Lemma lookup_one_item (response : settled) (ip : string) :
  Batch.lookup_one response ip = Returns (Spec.item_for response ip).
Proof.
  unfold Batch.lookup_one, Spec.item_for, member.
  destruct response as [data|]; [|reflexivity]. simpl.
  destruct (is_nullish data); [reflexivity|]. simpl.
  destruct (is_string (prop data "status") "success"); reflexivity.
Qed.

Lemma item_failed_is_error (response : settled) (ip : string) :
  Spec.item_failed response = true ->
  exists reason, Spec.item_for response ip = Batch.ItemError ip reason.
Proof.
  unfold Spec.item_failed, Spec.item_for, Spec.reports_success, opt_chain.
  destruct response as [data|]; [|eauto].
  destruct (is_nullish data); [eauto|].
  destruct (is_string (prop data "status") "success"); [discriminate|eauto].
Qed.

Lemma item_error_is_failed (response : settled) (ip : string) :
  Spec.is_error (Spec.item_for response ip) = Spec.item_failed response.
Proof.
  unfold Spec.item_failed, Spec.item_for, Spec.reports_success, opt_chain.
  destruct response as [data|]; [|reflexivity].
  destruct (is_nullish data); [reflexivity|].
  destruct (is_string (prop data "status") "success"); reflexivity.
Qed.

Lemma Promise_all_returns {A B : Type} (g : nat -> A -> B) (l : list A) :
  Promise_all (imap (fun i x => Returns (g i x)) l) = Returns (imap g l).
Proof.
  unfold Promise_all. revert g.
  induction l as [|x l IH]; intros g; [reflexivity|].
  simpl. change (mapM id (imap (fun i y => Returns ((g ∘ S) i y)) l)
                 ≫= (fun k => mret (g 0%nat x :: k))
                 = Returns (g 0%nat x :: imap (g ∘ S) l)).
  rewrite IH. reflexivity.
Qed.

Lemma batch_handler_returns (net : internet) (now : string)
  (ips : list string) :
  let validIPs := List.filter isValidIP ips in
  let invalidIPs := List.filter (fun ip => negb (isValidIP ip)) ips in
  Batch.handler net now ips = Returns {|
    Batch.results :=
      imap (fun i ip => Spec.item_for (net i (Batch.url ip)) ip) validIPs;
    Batch.invalidIPs := if (0 <? length invalidIPs)%nat
                        then Some invalidIPs else None;
    Batch.count := {| Batch.requested := length ips;
                      Batch.valid := length validIPs;
                      Batch.invalid := length invalidIPs |};
    Batch.source := "ip-api.com";
    Batch.fetchedAt := now;
  |}.
Proof.
  intros validIPs invalidIPs. unfold Batch.handler. fold validIPs invalidIPs.
  rewrite (imap_ext _ (fun i ip => Returns (Spec.item_for (net i (Batch.url ip)) ip)))
    by (intros; apply lookup_one_item).
  rewrite Promise_all_returns. reflexivity.
Qed.

Lemma filter_partition_length {A : Type} (p : A -> bool) (l : list A) :
  length l
  = (length (List.filter p l) + length (List.filter (fun x => negb (p x)) l))%nat.
Proof.
  induction l as [|x l IH]; [reflexivity|].
  simpl. destruct (p x); simpl; lia.
Qed.

Lemma filter_negb_nil {A : Type} (p : A -> bool) (l : list A) :
  List.filter (fun x => negb (p x)) l = [] <-> Forall (fun x => p x = true) l.
Proof.
  induction l as [|x l IH]; simpl.
  - split; auto.
  - destruct (p x) eqn:Hx; simpl.
    + rewrite IH. split; [intros; constructor; assumption|].
      intros H. inversion H; assumption.
    + split; [discriminate|]. intros H. inversion H; congruence.
Qed.

(** C5.  The batch handler returns for every input list and every way the
    fetches settle.  The entry of a valid address whose fetch is rejected
    (an error, a timeout) or answered without the status [success] is an
    [{ip, error}] for that address, and an entry depends on the outcome of
    its own fetch only: on any other internet that settles this fetch the
    same way, the entry is the same. *)
Theorem batch_isolates_failures (net : internet) (now : string)
  (ips : list string) :
  exists o,
    Batch.handler net now ips = Returns o
    /\ (forall i ip,
          List.filter isValidIP ips !! i = Some ip ->
          Spec.item_failed (net i (Batch.url ip)) = true ->
          exists reason,
            Batch.results o !! i = Some (Batch.ItemError ip reason))
    /\ (forall (net' : internet) i ip,
          List.filter isValidIP ips !! i = Some ip ->
          net' i (Batch.url ip) = net i (Batch.url ip) ->
          exists o',
            Batch.handler net' now ips = Returns o'
            /\ Batch.results o' !! i = Batch.results o !! i).
Proof.
  eexists. split; [apply batch_handler_returns|]. simpl. split.
  - intros i ip Hip Hfailed.
    destruct (item_failed_is_error _ ip Hfailed) as [reason Hreason].
    exists reason. rewrite list_lookup_imap, Hip. simpl. congruence.
  - intros net' i ip Hip Hsame.
    eexists. split; [apply batch_handler_returns|]. simpl.
    rewrite !list_lookup_imap, Hip. simpl. congruence.
Qed.

(** C6.  [results] holds one entry per valid address, in the order of the
    input; [count] gives the length of the input and the numbers of valid
    and of invalid addresses; [invalidIPs] is [undefined] (left out of the
    response) exactly when every address is valid, and otherwise lists the
    invalid ones in the order of the input, so it is never an empty
    array. *)
Theorem batch_output_shape (net : internet) (now : string)
  (ips : list string) :
  let validIPs := List.filter isValidIP ips in
  let invalidIPs := List.filter (fun ip => negb (isValidIP ip)) ips in
  exists o,
    Batch.handler net now ips = Returns o
    /\ Batch.results o
       = imap (fun i ip => Spec.item_for (net i (Batch.url ip)) ip) validIPs
    /\ length (Batch.results o) = length validIPs
    /\ Batch.count o = {| Batch.requested := length ips;
                          Batch.valid := length validIPs;
                          Batch.invalid := length invalidIPs |}
    /\ Batch.requested (Batch.count o)
       = (Batch.valid (Batch.count o) + Batch.invalid (Batch.count o))%nat
    /\ (Batch.invalidIPs o = None
        <-> Forall (fun ip => isValidIP ip = true) ips)
    /\ (forall l, Batch.invalidIPs o = Some l -> l = invalidIPs /\ l <> []).
Proof.
  intros validIPs invalidIPs.
  eexists. split; [apply batch_handler_returns|]. simpl.
  fold validIPs invalidIPs.
  split; [reflexivity|]. split; [apply length_imap|]. split; [reflexivity|].
  split; [apply filter_partition_length|].
  pose proof (filter_negb_nil isValidIP ips) as Hnil. fold invalidIPs in Hnil.
  destruct invalidIPs as [|ip rest]; simpl.
  - split; [tauto|]. discriminate.
  - split.
    + split; [discriminate|]. intros H. apply Hnil in H. discriminate H.
    + intros l [= <-]. split; [reflexivity|discriminate].
Qed.

(** The batch of the specification: ten addresses, the fifth invalid, the
    fetch for the eighth rejected. *)
Lemma batch_example (now : string) :
  exists o,
    Batch.handler eighth_fetch_rejected now ten_addresses = Returns o
    /\ Batch.count o
       = {| Batch.requested := 10; Batch.valid := 9; Batch.invalid := 1 |}
    /\ Batch.invalidIPs o = Some ["8.8.8.256"]
    /\ map Spec.is_error (Batch.results o)
       = [false; false; false; false; false; false; true; false; false]
    /\ Batch.results o !! 6%nat
       = Some (Batch.ItemError "8.8.8.8" "Request failed").
Proof.
  eexists. split; [apply batch_handler_returns|].
  repeat split; vm_compute; reflexivity.
Qed.

Lemma batch_example_all_valid (net : internet) (now : string) :
  exists o,
    Batch.handler net now ["8.8.8.8"; "::1"] = Returns o
    /\ Batch.invalidIPs o = None
    /\ length (Batch.results o) = 2%nat.
Proof.
  eexists. split; [apply batch_handler_returns|].
  split; vm_compute; reflexivity.
Qed.

(** *** Entrypoint [distance] *)

(** The handler computes the span of the coordinates of the two answers,
    each converted to a number. *)
Lemma distance_handler_span (E : Engine) (net : internet)
  (now ip1 ip2 : string) (o : Distance.Result) :
  Distance.handler E net now ip1 ip2 = Returns (Distance.Measured o) ->
  exists data1 data2 lat1 lon1 lat2 lon2,
    net 0%nat (Distance.url ip1) = Fulfilled data1
    /\ net 1%nat (Distance.url ip2) = Fulfilled data2
    /\ ToNumber E (prop data1 "lat") = Returns lat1
    /\ ToNumber E (prop data1 "lon") = Returns lon1
    /\ ToNumber E (prop data2 "lat") = Returns lat2
    /\ ToNumber E (prop data2 "lon") = Returns lon2
    /\ Distance.distance o = Distance.span E lat1 lon1 lat2 lon2.
Proof.
  unfold Distance.handler, Promise_all.
  destruct (negb (isValidIP ip1) || negb (isValidIP ip2)); [discriminate|].
  destruct (net 0%nat (Distance.url ip1)) as [data1|]; [|discriminate].
  destruct (net 1%nat (Distance.url ip2)) as [data2|]; [|discriminate].
  simpl. intros H.
  apply bind_returns_inv in H as (status1 & _ & H).
  apply bind_returns_inv in H as (failed & _ & H).
  destruct failed; [discriminate|].
  apply bind_returns_inv in H as (d & Hd & H).
  injection H as <-. simpl.
  unfold Distance.span_of in Hd.
  apply bind_returns_inv in Hd as (lat2 & Hlat2 & Hd).
  apply bind_returns_inv in Hd as (lat1 & Hlat1 & Hd).
  apply bind_returns_inv in Hd as (lon2 & Hlon2 & Hd).
  apply bind_returns_inv in Hd as (lon1 & Hlon1 & Hd).
  injection Hd as <-.
  exists data1, data2, lat1, lon1, lat2, lon2. auto 10.
Qed.

(** C8.  [haversineDistance] is the haversine formula with the radius
    6371 km, on degrees converted to radians; the handler reports
    [round(x * 100) / 100] for the kilometres and for the miles, which are
    the unrounded kilometres times 0.621371. *)
Theorem haversine_matches_formula (E : Engine) (lat1 lon1 lat2 lon2 : float) :
  Distance.haversineDistance E lat1 lon1 lat2 lon2
  = Spec.haversine_formula E lat1 lon1 lat2 lon2
  /\ Distance.km (Distance.span E lat1 lon1 lat2 lon2)
     = Spec.round2 E (Spec.haversine_formula E lat1 lon1 lat2 lon2)
  /\ Distance.miles (Distance.span E lat1 lon1 lat2 lon2)
     = Spec.round2 E
         (Spec.haversine_formula E lat1 lon1 lat2 lon2 * 0.621371)%float.
Proof.
  assert (Hkm : Distance.haversineDistance E lat1 lon1 lat2 lon2
                = Spec.haversine_formula E lat1 lon1 lat2 lon2).
  { unfold Distance.haversineDistance, Spec.haversine_formula, Spec.radians,
      Spec.squared.
    replace (6371 * 2)%float with (2 * 6371)%float by reflexivity.
    reflexivity. }
  unfold Distance.span, Spec.round2. simpl. rewrite Hkm. auto.
Qed.

(* ===================================================================== *)
(** ** More properties of the program *)
(* ===================================================================== *)

(** *** [isValidIP] *)

Lemma length_append (s1 s2 : string) :
  String.length (s1 ++ s2) = (String.length s1 + String.length s2)%nat.
Proof. induction s1 as [|c s1 IH]; simpl; [reflexivity|]. rewrite IH. reflexivity. Qed.

Lemma append_assoc (s1 s2 s3 : string) : (s1 ++ s2) ++ s3 = s1 ++ (s2 ++ s3).
Proof.
  induction s1 as [|c s1 IH]; [reflexivity|].
  change (String c ((s1 ++ s2) ++ s3) = String c (s1 ++ (s2 ++ s3))).
  rewrite IH. reflexivity.
Qed.

Lemma append_empty_r (s : string) : s ++ "" = s.
Proof.
  induction s as [|c s IH]; [reflexivity|].
  change (String c (s ++ "") = String c s). rewrite IH. reflexivity.
Qed.

Lemma all_chars_append (P : ascii -> bool) (s1 s2 : string) :
  all_chars P (s1 ++ s2) = all_chars P s1 && all_chars P s2.
Proof.
  induction s1 as [|c s1 IH]; simpl; [reflexivity|].
  rewrite IH. apply andb_assoc.
Qed.

Lemma count_dots_append (s1 s2 : string) :
  count_dots (s1 ++ s2) = (count_dots s1 + count_dots s2)%nat.
Proof. induction s1 as [|c s1 IH]; simpl; [reflexivity|]. rewrite IH. lia. Qed.

Lemma in_range_chars (c : ascii) (range : ascii * ascii) :
  in_range c range = true -> In c (chars_of_range range).
Proof.
  unfold in_range, chars_of_range.
  intros [Hlo Hhi]%andb_prop.
  apply Nat.leb_le in Hlo, Hhi.
  rewrite <- (ascii_nat_embedding c) at 1.
  apply in_map, in_seq. lia.
Qed.

Lemma in_class_within (P : ascii -> bool) (ranges : list (ascii * ascii))
  (c : ascii) :
  forallb (fun range => forallb P (chars_of_range range)) ranges = true ->
  in_class c ranges = true -> P c = true.
Proof.
  intros Hall Hc. unfold in_class in Hc.
  apply existsb_exists in Hc as (range & Hin & Hrange).
  rewrite forallb_forall in Hall. specialize (Hall range Hin).
  rewrite forallb_forall in Hall. apply Hall, in_range_chars, Hrange.
Qed.

Lemma Matches_all_chars (P : ascii -> bool) (r : regex) (s : string) :
  classes_within P r = true -> Matches r s -> all_chars P s = true.
Proof.
  intros Hr H.
  induction H as [|c ranges Hc|r1 r2 s1 s2 _ IH1 _ IH2|r1 r2 s _ IH|r1 r2 s _ IH];
    simpl in Hr.
  - reflexivity.
  - simpl. rewrite (in_class_within P ranges c Hr Hc). reflexivity.
  - apply andb_prop in Hr as [H1 H2].
    rewrite all_chars_append, IH1, IH2 by assumption. reflexivity.
  - apply andb_prop in Hr as [H1 _]. auto.
  - apply andb_prop in Hr as [_ H2]. auto.
Qed.

Lemma Matches_length (r : regex) (s : string) :
  Matches r s -> (min_length r <= String.length s <= max_length r)%nat.
Proof.
  intros H.
  induction H as [|c ranges Hc|r1 r2 s1 s2 _ IH1 _ IH2|r1 r2 s _ IH|r1 r2 s _ IH];
    simpl; rewrite ?length_append; lia.
Qed.

(** An address that [isValidIP] accepts is written with decimal digits and
    dots, in 7 to 15 characters, or with hexadecimal digits and colons, in 2
    to 39 characters: put into the URL of a request, it can add no [/], [?],
    [&], [#] or space to it. *)
Theorem isValidIP_shape (ip : string) :
  isValidIP ip = true ->
  (all_chars dotted_char ip = true
   /\ (7 <= String.length ip <= 15)%nat)
  \/ (all_chars colon_hex_char ip = true
      /\ (2 <= String.length ip <= 39)%nat).
Proof.
  unfold isValidIP. intros [H|H]%orb_prop; apply test_Matches in H.
  - left. split.
    + apply (Matches_all_chars _ ipv4); [vm_compute; reflexivity|exact H].
    + apply Matches_length in H. exact H.
  - right. split.
    + apply (Matches_all_chars _ ipv6); [vm_compute; reflexivity|exact H].
    + apply Matches_length in H. exact H.
Qed.

Lemma isValidIP_shape_witness :
  all_chars colon_hex_char "2001:db8:0:0:0:0:0:1" = true
  /\ (2 <= String.length "2001:db8:0:0:0:0:0:1" <= 39)%nat.
Proof.
  destruct (isValidIP_shape "2001:db8:0:0:0:0:0:1") as [[H _]|H].
  - vm_compute; reflexivity.
  - vm_compute in H. discriminate H.
  - exact H.
Defined.

Lemma digit_strings_complete (s : string) :
  all_chars is_digit s = true -> In s (digit_strings (String.length s)).
Proof.
  induction s as [|c s IH]; [simpl; auto|].
  intros H. change (is_digit c && all_chars is_digit s = true) in H.
  apply andb_prop in H as [Hc Hs].
  change (In (String c s)
            (flat_map (fun c => map (String c) (digit_strings (String.length s)))
               digit_chars)).
  apply in_flat_map. exists c. split.
  - apply in_range_chars, Hc.
  - apply in_map, IH, Hs.
Qed.

Lemma octet_test_checked :
  forallb (fun s => Bool.eqb (test octet s) (octet_text s))
    (digit_strings 1 ++ digit_strings 2 ++ digit_strings 3)%list = true.
Proof. vm_compute. reflexivity. Qed.

(** [octet] is the expression of the numbers 0 to 255 written with one to
    three digits. *)
Lemma octet_test (s : string) : test octet s = octet_text s.
Proof.
  destruct (all_chars is_digit s
            && ((1 <=? String.length s)%nat && (String.length s <=? 3)%nat))
    eqn:Hshape.
  - apply andb_prop in Hshape as [Hdigits [Hlo Hhi]%andb_prop].
    apply Nat.leb_le in Hlo, Hhi.
    pose proof (digit_strings_complete s Hdigits) as Hin.
    pose proof octet_test_checked as Hall. rewrite forallb_forall in Hall.
    apply Bool.eqb_prop, Hall. rewrite !in_app_iff.
    destruct (String.length s) as [|[|[|[|n]]]]; try lia; auto.
  - assert (Htext : octet_text s = false).
    { unfold octet_text.
      destruct (all_chars is_digit s), (1 <=? String.length s)%nat,
        (String.length s <=? 3)%nat; simpl in *; congruence. }
    rewrite Htext. destruct (test octet s) eqn:Htest; [|reflexivity].
    apply test_Matches in Htest.
    pose proof (Matches_all_chars is_digit octet s eq_refl Htest) as Hdigits.
    pose proof (Matches_length octet s Htest) as Hlen. simpl in Hlen.
    rewrite Hdigits, andb_true_l in Hshape.
    apply andb_false_iff in Hshape as [H|H]; apply Nat.leb_gt in H; lia.
Qed.

Lemma Matches_chr (c : ascii) (s : string) :
  Matches (chr c) s <-> s = String c EmptyString.
Proof.
  unfold chr. split.
  - intros H. inversion H as [|c' ranges Hc| | |]; subst.
    unfold in_class, in_range in Hc. simpl in Hc.
    rewrite orb_false_r in Hc. apply andb_prop in Hc as [H1 H2].
    apply Nat.leb_le in H1, H2.
    assert (Heq : nat_of_ascii c' = nat_of_ascii c) by lia.
    rewrite <- (ascii_nat_embedding c'), Heq, ascii_nat_embedding.
    reflexivity.
  - intros ->. constructor. unfold in_class, in_range. simpl.
    rewrite Nat.leb_refl. reflexivity.
Qed.

Lemma Matches_ipv4 (s : string) :
  Matches ipv4 s
  <-> exists a b c d,
        s = a ++ "." ++ b ++ "." ++ c ++ "." ++ d
        /\ Matches octet a /\ Matches octet b /\ Matches octet c
        /\ Matches octet d.
Proof.
  unfold ipv4. simpl rep. split.
  - intros H.
    inversion H as [| |? ? s123 d H123 Hd| |]; subst.
    inversion H123 as [| |? ? s1 s23 H1 H23| |]; subst.
    inversion H23 as [| |? ? s2 s3e H2 H3e| |]; subst.
    inversion H3e as [| |? ? s3 e H3 He| |]; subst.
    inversion He; subst.
    inversion H1 as [| |? ? a dot1 Ha Hdot1| |]; subst.
    inversion H2 as [| |? ? b dot2 Hb Hdot2| |]; subst.
    inversion H3 as [| |? ? c dot3 Hc Hdot3| |]; subst.
    apply Matches_chr in Hdot1, Hdot2, Hdot3. subst.
    exists a, b, c, d. split; [|auto].
    rewrite append_empty_r, !append_assoc. reflexivity.
  - intros (a & b & c & d & -> & Ha & Hb & Hc & Hd).
    assert (Hdot : Matches (chr ".") ".") by (apply Matches_chr; reflexivity).
    replace (a ++ "." ++ b ++ "." ++ c ++ "." ++ d)
      with (((a ++ ".") ++ (b ++ ".") ++ (c ++ ".") ++ "") ++ d)
      by (rewrite append_empty_r, !append_assoc; reflexivity).
    apply MCat; [|exact Hd].
    apply MCat; [apply MCat; assumption|].
    apply MCat; [apply MCat; assumption|].
    apply MCat; [apply MCat; assumption|apply MEps].
Qed.

Lemma digits_no_dots (s : string) :
  all_chars is_digit s = true -> count_dots s = 0%nat.
Proof.
  induction s as [|c s IH]; simpl; [reflexivity|].
  intros [Hc Hs]%andb_prop. rewrite (IH Hs).
  destruct (Ascii.eqb_spec c ".") as [->|_]; [discriminate Hc|reflexivity].
Qed.

Lemma octet_text_no_dots (s : string) :
  octet_text s = true -> count_dots s = 0%nat.
Proof.
  unfold octet_text. intros [[_ H]%andb_prop _]%andb_prop.
  apply digits_no_dots, H.
Qed.

Lemma split_at_first_dot (a a' r r' : string) :
  count_dots a = 0%nat -> count_dots a' = 0%nat ->
  a ++ "." ++ r = a' ++ "." ++ r' -> a = a' /\ r = r'.
Proof.
  revert a'. induction a as [|c a IH]; intros [|c' a'] Ha Ha' H.
  - change (String "." r = String "." r') in H. injection H as <-. auto.
  - change (String "." r = String c' (a' ++ "." ++ r')) in H.
    injection H as <- _. simpl in Ha'. discriminate Ha'.
  - change (String c (a ++ "." ++ r) = String "." r') in H.
    injection H as -> _. simpl in Ha. discriminate Ha.
  - change (String c (a ++ "." ++ r) = String c' (a' ++ "." ++ r')) in H.
    injection H as <- H. simpl in Ha, Ha'.
    destruct (IH a') as [<- <-]; auto; lia.
Qed.

(** A dotted quad is accepted exactly when each of its four parts is a
    number from 0 to 255 written with one to three digits, leading zeros
    allowed: no part above 255, empty, signed or longer passes, and neither
    does a fifth part. *)
Theorem isValidIP_dotted_quad (a b c d : string) :
  isValidIP (a ++ "." ++ b ++ "." ++ c ++ "." ++ d)
  = octet_text a && octet_text b && octet_text c && octet_text d.
Proof.
  set (s := a ++ "." ++ b ++ "." ++ c ++ "." ++ d).
  assert (H6 : test ipv6 s = false).
  { destruct (test ipv6 s) eqn:H; [|reflexivity].
    apply test_Matches in H.
    apply (Matches_all_chars colon_hex_char) in H; [|vm_compute; reflexivity].
    unfold s in H. rewrite !all_chars_append in H. simpl in H.
    rewrite !andb_false_r in H. discriminate H. }
  unfold isValidIP. rewrite H6, orb_false_r.
  destruct (octet_text a && octet_text b && octet_text c && octet_text d)
    eqn:Hparts.
  - apply andb_prop in Hparts as [[[Ha Hb]%andb_prop Hc]%andb_prop Hd].
    rewrite <- octet_test in Ha, Hb, Hc, Hd.
    apply test_Matches in Ha, Hb, Hc, Hd.
    apply test_Matches, Matches_ipv4. exists a, b, c, d. auto.
  - destruct (test ipv4 s) eqn:H4; [|reflexivity].
    apply test_Matches, Matches_ipv4 in H4
      as (a' & b' & c' & d' & Hs & Ha' & Hb' & Hc' & Hd').
    apply test_Matches in Ha', Hb', Hc', Hd'.
    rewrite octet_test in Ha', Hb', Hc', Hd'.
    pose proof (octet_text_no_dots a' Ha') as Na'.
    pose proof (octet_text_no_dots b' Hb') as Nb'.
    pose proof (octet_text_no_dots c' Hc') as Nc'.
    pose proof (octet_text_no_dots d' Hd') as Nd'.
    pose proof (f_equal count_dots Hs) as Hdots. unfold s in Hdots.
    rewrite !count_dots_append in Hdots. simpl in Hdots.
    unfold s in Hs.
    apply split_at_first_dot in Hs as [<- Hs]; [|lia..].
    apply split_at_first_dot in Hs as [<- Hs]; [|lia..].
    apply split_at_first_dot in Hs as [<- <-]; [|lia..].
    rewrite Ha', Hb', Hc', Hd' in Hparts. discriminate Hparts.
Qed.

Lemma colon_groups_cons (c : ascii) (s : string) :
  colon_groups (String c s)
  = if Ascii.eqb c ":" then "" :: colon_groups s
    else match colon_groups s with
         | g :: gs => String c g :: gs
         | [] => [String c ""]
         end.
Proof. reflexivity. Qed.

Lemma colon_groups_not_nil (s : string) : colon_groups s <> [].
Proof.
  destruct s as [|c s]; [discriminate|].
  rewrite colon_groups_cons.
  destruct (Ascii.eqb c ":"); [discriminate|].
  destruct (colon_groups s); discriminate.
Qed.

Lemma colon_groups_empty (s : string) : colon_groups s = [""] -> s = "".
Proof.
  destruct s as [|c s]; [reflexivity|].
  rewrite colon_groups_cons.
  pose proof (colon_groups_not_nil s) as Hs.
  destruct (Ascii.eqb c ":"), (colon_groups s); congruence.
Qed.

Lemma colon_groups_colon (a b : string) :
  colon_groups (a ++ ":" ++ b) = (colon_groups a ++ colon_groups b)%list.
Proof.
  induction a as [|c a IH]; [reflexivity|].
  change (String c a ++ ":" ++ b) with (String c (a ++ ":" ++ b)).
  rewrite !colon_groups_cons, IH.
  pose proof (colon_groups_not_nil a) as Ha.
  destruct (Ascii.eqb c ":"); [reflexivity|].
  destruct (colon_groups a); [congruence|reflexivity].
Qed.

Lemma colon_groups_hex (g : string) :
  all_chars is_hex_digit g = true -> colon_groups g = [g].
Proof.
  induction g as [|c g IH]; [reflexivity|].
  intros H. change (is_hex_digit c && all_chars is_hex_digit g = true) in H.
  apply andb_prop in H as [Hc Hg].
  rewrite colon_groups_cons, (IH Hg).
  destruct (Ascii.eqb_spec c ":") as [->|_]; [|reflexivity].
  vm_compute in Hc. discriminate Hc.
Qed.

Lemma Matches_h16 (g : string) :
  Matches h16 g -> all_chars is_hex_digit g = true /\ g <> "".
Proof.
  intros H. split.
  - apply (Matches_all_chars _ h16); [vm_compute; reflexivity|exact H].
  - apply Matches_length in H. intros ->. simpl in H. lia.
Qed.

(** A set of strings closed under concatenation holds the bounded
    repetitions of an expression when it holds the expression's strings. *)
Section Repetitions.

Variable L : string -> Prop.
Variable r : regex.
Hypothesis L_empty : L "".
Hypothesis L_append : forall s1 s2, L s1 -> L s2 -> L (s1 ++ s2).
Hypothesis L_r : forall s, Matches r s -> L s.

Lemma Matches_rep_closed (n : nat) (s : string) : Matches (rep n r) s -> L s.
Proof.
  revert s. induction n as [|n IH]; intros s H; simpl in H.
  - inversion H; subst. exact L_empty.
  - inversion H; subst. auto.
Qed.

Lemma Matches_upto_closed (n : nat) (s : string) : Matches (upto n r) s -> L s.
Proof.
  revert s. induction n as [|n IH]; intros s H; simpl in H.
  - inversion H; subst. exact L_empty.
  - unfold opt in H. inversion H as [| | |? ? ? H'|? ? ? H']; subst.
    + inversion H'; subst. auto.
    + inversion H'; subst. exact L_empty.
Qed.

Lemma Matches_rep_range_closed (m n : nat) (s : string) :
  Matches (rep_range m n r) s -> L s.
Proof.
  unfold rep_range. intros H. inversion H; subst.
  eauto using Matches_rep_closed, Matches_upto_closed.
Qed.

End Repetitions.

(** The groups of [(h16:){m,n}] and of [(:h16){m,n}], within a longer
    string. *)
Lemma groups_then_colons (m n : nat) (s : string) :
  Matches (rep_range m n (Cat h16 (chr ":"))) s ->
  exists gs, Forall filled gs
             /\ forall t, colon_groups (s ++ t) = (gs ++ colon_groups t)%list.
Proof.
  apply (Matches_rep_range_closed
           (fun s => exists gs, Forall filled gs
              /\ forall t, colon_groups (s ++ t) = (gs ++ colon_groups t)%list)).
  - exists []. split; [constructor|reflexivity].
  - intros s1 s2 (gs1 & H1 & E1) (gs2 & H2 & E2).
    exists (gs1 ++ gs2)%list. split; [apply Forall_app; auto|].
    intros t. rewrite append_assoc, E1, E2, app_assoc. reflexivity.
  - intros s' H. inversion H as [| |? ? g x Hg Hx| |]; subst.
    apply Matches_chr in Hx as ->. apply Matches_h16 in Hg as [Hhex Hne].
    exists [g]. split; [repeat constructor; exact Hne|].
    intros t. rewrite append_assoc.
    change (String ":" "" ++ t) with (":" ++ t).
    rewrite colon_groups_colon, (colon_groups_hex g Hhex). reflexivity.
Qed.

Lemma colons_then_groups (m n : nat) (s : string) :
  Matches (rep_range m n (Cat (chr ":") h16)) s ->
  exists gs, Forall filled gs
             /\ forall p, colon_groups (p ++ s) = (colon_groups p ++ gs)%list.
Proof.
  apply (Matches_rep_range_closed
           (fun s => exists gs, Forall filled gs
              /\ forall p, colon_groups (p ++ s) = (colon_groups p ++ gs)%list)).
  - exists []. split; [constructor|].
    intros p. rewrite append_empty_r, app_nil_r. reflexivity.
  - intros s1 s2 (gs1 & H1 & E1) (gs2 & H2 & E2).
    exists (gs1 ++ gs2)%list. split; [apply Forall_app; auto|].
    intros p. rewrite <- append_assoc, E2, E1, app_assoc. reflexivity.
  - intros s' H. inversion H as [| |? ? x g Hx Hg| |]; subst.
    apply Matches_chr in Hx as ->. apply Matches_h16 in Hg as [Hhex Hne].
    exists [g]. split; [repeat constructor; exact Hne|].
    intros p. change (String ":" "" ++ g) with (":" ++ g).
    rewrite colon_groups_colon, (colon_groups_hex g Hhex). reflexivity.
Qed.

(** The groups of an address the IPv6 pattern accepts: no empty group, or
    empty groups only at one end. *)
Lemma ipv6_groups (s : string) :
  Matches ipv6 s ->
  exists gs, Forall filled gs
    /\ (colon_groups s = gs
        \/ (colon_groups s = [""; ""; ""])
        \/ colon_groups s = (gs ++ [""; ""])%list
        \/ colon_groups s = "" :: "" :: gs).
Proof.
  unfold ipv6. intros H.
  inversion H as [| | |? ? ? H3|? ? ? H4]; subst;
    [inversion H3 as [| | |? ? ? H2|? ? ? H3']; subst;
     [inversion H2 as [| | |? ? ? H1|? ? ? H2']; subst|]|].
  - inversion H1 as [| |? ? x g Hx Hg| |]; subst.
    assert (Hx' : Matches (rep_range 7 7 (Cat h16 (chr ":"))) x).
    { unfold rep_range. rewrite <- (append_empty_r x).
      apply MCat; [exact Hx|constructor]. }
    apply groups_then_colons in Hx' as (gs & Hgs & E).
    apply Matches_h16 in Hg as [Hhex Hne].
    exists (gs ++ [g])%list. split.
    + apply Forall_app. split; [exact Hgs|repeat constructor; exact Hne].
    + left. rewrite E, (colon_groups_hex g Hhex). reflexivity.
  - inversion H2' as [| |? ? x y Hx Hy| |]; subst.
    apply Matches_chr in Hx as ->. apply Matches_chr in Hy as ->.
    exists []. split; [constructor|]. right. left. reflexivity.
  - inversion H3' as [| |? ? x y Hx Hy| |]; subst.
    apply Matches_chr in Hy as ->.
    apply groups_then_colons in Hx as (gs & Hgs & E).
    exists gs. split; [exact Hgs|]. right. right. left.
    rewrite E. reflexivity.
  - inversion H4 as [| |? ? x y Hx Hy| |]; subst.
    apply Matches_chr in Hx as ->.
    apply colons_then_groups in Hy as (gs & Hgs & E).
    exists gs. split; [exact Hgs|]. right. right. right.
    rewrite E. reflexivity.
Qed.

Lemma filled_no_empty (gs : list string) :
  Forall filled gs -> In "" gs -> False.
Proof.
  intros H Hin. rewrite List.Forall_forall in H. exact (H _ Hin eq_refl).
Qed.

Ltac length_clash :=
  match goal with
  | H : @eq (list _) _ _ |- _ =>
      apply (f_equal length) in H;
      repeat (rewrite length_app in H || simpl in H); lia
  end.

Lemma filled_gap (l1 l2 : list string) :
  Forall filled (l1 ++ "" :: l2) -> False.
Proof. intros [_ [H _]%Forall_cons]%Forall_app. exact (H eq_refl). Qed.

Ltac filled_clash :=
  match goal with
  | H : Forall filled (?x :: ?l1 ++ "" :: ?l2)%list |- _ =>
      exact (filled_gap (x :: l1) l2 H)
  | H : Forall filled (?l1 ++ "" :: ?l2)%list |- _ =>
      exact (filled_gap l1 l2 H)
  end.

(** An address with [::] between two non-empty parts, the usual short form
    of an IPv6 address ([2001:4860:4860::8888]), is refused: the pattern
    accepts [::] only as the first or the last two characters of an
    address. *)
Theorem isValidIP_refuses_inner_gap (a b : string) :
  a <> "" -> b <> "" -> isValidIP (a ++ "::" ++ b) = false.
Proof.
  intros Ha Hb. unfold isValidIP.
  apply orb_false_iff. split.
  - destruct (test ipv4 (a ++ "::" ++ b)) eqn:H; [|reflexivity].
    apply test_Matches in H.
    apply (Matches_all_chars dotted_char) in H; [|vm_compute; reflexivity].
    rewrite all_chars_append in H. apply andb_prop in H as [_ H].
    vm_compute in H. discriminate H.
  - destruct (test ipv6 (a ++ "::" ++ b)) eqn:H; [|reflexivity].
    exfalso. apply test_Matches in H.
    apply ipv6_groups in H as (gs & Hgs & H).
    change (a ++ "::" ++ b) with (a ++ ":" ++ (":" ++ b)) in H.
    rewrite colon_groups_colon in H.
    change (colon_groups (":" ++ b)) with ("" :: colon_groups b) in H.
    pose proof (colon_groups_not_nil a) as Hna.
    pose proof (colon_groups_not_nil b) as Hnb.
    pose proof (colon_groups_empty a) as Hea.
    pose proof (colon_groups_empty b) as Heb.
    destruct (colon_groups a) as [|x ga]; [congruence|].
    destruct (colon_groups b) as [|y gb]; [congruence|].
    destruct H as [H|[H|[H|H]]].
    + subst gs. filled_clash.
    + destruct ga as [|x' ga]; simplify_eq/=; [naive_solver|length_clash].
    + apply app_eq_app in H as (l & [[E1 E2]|[E1 E2]]).
      * destruct l as [|z [|z' l]]; simplify_eq/=;
          [naive_solver|length_clash].
      * destruct l as [|z l]; simplify_eq/=; [naive_solver|filled_clash].
    + simplify_eq/=. destruct ga as [|x' ga]; simplify_eq/=;
        [naive_solver|filled_clash].
Qed.

Lemma isValidIP_refuses_inner_gap_witness :
  isValidIP "2001:4860:4860::8888" = false.
Proof.
  apply (isValidIP_refuses_inner_gap "2001:4860:4860" "8888"); discriminate.
Defined.

(** *** What the handlers raise *)

Lemma ToString_raises_TypeError (E : Engine) :
  forall (v : value) (e : js_error), ToString E v = Throws e -> e = TypeError.
Proof.
  fix IH 1. intros v e. destruct v as [| |[|]|n|s|items|o|]; simpl;
    try discriminate.
  - intros H. apply eq_sym.
    match type of H with ?each items ≫= _ = _ => set (go := each) in * end.
    assert (Hgo : forall l e', go l = Throws e' -> e' = TypeError).
    { clear H e. fix IHl 1. intros l e'. destruct l as [|x rest]; simpl.
      - discriminate.
      - destruct (is_nullish x).
        + simpl. destruct (go rest) as [ss|e0] eqn:Hrest; simpl.
          * discriminate.
          * intros [= <-]. exact (IHl rest e0 Hrest).
        + destruct (ToString E x) as [sx|ex] eqn:Hx; simpl.
          * destruct (go rest) as [ss|e0] eqn:Hrest; simpl.
            -- discriminate.
            -- intros [= <-]. exact (IHl rest e0 Hrest).
          * intros [= <-]. exact (IH x ex Hx). }
    destruct (go items) as [ss|e0] eqn:Hitems; simpl in H.
    + discriminate H.
    + injection H as <-. symmetry. exact (Hgo items e0 Hitems).
  - destruct (o !! "toString"); [|discriminate]. intros [= <-]. reflexivity.
Qed.

Lemma bind_throws_inv {A B : Type} (m : exec A) (k : A -> exec B)
  (e : js_error) :
  m ≫= k = Throws e ->
  m = Throws e \/ exists a, m = Returns a /\ k a = Throws e.
Proof. destruct m as [a|e0]; simpl; [eauto|]. intros [= ->]. auto. Qed.

Lemma first_truthy_raises (x y : value) (m : exec value) (e : js_error) :
  Returns x |||! m |||! Returns y = Throws e -> m = Throws e.
Proof.
  unfold exec_or. simpl.
  destruct (truthy x) eqn:Hx; simpl; [rewrite Hx; discriminate|].
  destruct m as [v|e0]; simpl; [|congruence].
  destruct (truthy v) eqn:Hv; simpl; rewrite ?Hv; discriminate.
Qed.

Lemma last_candidate_raises (x y : value) (m : exec value) (e : js_error) :
  Returns x |||! Returns y |||! m = Throws e -> m = Throws e.
Proof.
  unfold exec_or. simpl.
  destruct (truthy x) eqn:Hx; simpl; [rewrite Hx; discriminate|].
  destruct (truthy y) eqn:Hy; simpl; rewrite ?Hy; [discriminate|auto].
Qed.

Lemma loc_coordinate_raises (E : Engine) (s : value) (i : nat)
  (e : js_error) :
  Full.loc_coordinate E s i = Throws e -> e = TypeError.
Proof.
  unfold Full.loc_coordinate.
  destruct (truthy (s ?. "loc")); [|discriminate].
  destruct (prop s "loc"); simpl; try discriminate; congruence.
Qed.

Lemma merge_raises_TypeError (E : Engine) (now ip : string) (a b c : settled)
  (e : js_error) :
  Full.merge E now ip a b c = Throws e -> e = TypeError.
Proof.
  unfold Full.merge. intros H.
  apply bind_throws_inv in H as [H|(l & _ & H)].
  - unfold Full.merge_location in H.
    apply bind_throws_inv in H as [H|(la & _ & H)].
    { apply first_truthy_raises, loc_coordinate_raises in H. exact H. }
    apply bind_throws_inv in H as [H|(lo & _ & H)]; [|discriminate H].
    apply first_truthy_raises, loc_coordinate_raises in H. exact H.
  - apply bind_throws_inv in H as [H|(n & _ & H)]; [|discriminate H].
    unfold Full.merge_network in H.
    apply bind_throws_inv in H as [H|(asn & _ & H)]; [|discriminate H].
    apply last_candidate_raises in H. unfold template in H.
    apply bind_throws_inv in H as [H|(txt & _ & H)]; [|discriminate H].
    eapply ToString_raises_TypeError, H.
Qed.

(** A rejected fetch (an error status, a timeout, a transport error) is
    raised to the caller by [overview], [lookup], [threat] and [distance],
    which do not catch it; [full] never raises it: whatever [full] raises is
    a [TypeError] of its own. *)
Theorem rejected_fetch_raises_unless_merged :
  (forall net now,
      net 0%nat Overview.url = Rejected ->
      Overview.handler net now = Throws FetchRejected)
  /\ (forall net now ip,
        isValidIP ip = true -> net 0%nat (Lookup.url ip) = Rejected ->
        Lookup.handler net now ip = Throws FetchRejected)
  /\ (forall net now ip,
        isValidIP ip = true ->
        net 0%nat (ThreatAssessment.url ip) = Rejected ->
        ThreatAssessment.handler net now ip = Throws FetchRejected)
  /\ (forall E net now ip1 ip2,
        isValidIP ip1 = true -> isValidIP ip2 = true ->
        net 0%nat (Distance.url ip1) = Rejected
        \/ net 1%nat (Distance.url ip2) = Rejected ->
        Distance.handler E net now ip1 ip2 = Throws FetchRejected)
  /\ (forall E net now ip e,
        Full.handler E net now ip = Throws e -> e = TypeError).
Proof.
  repeat split.
  - intros net now H. unfold Overview.handler. rewrite H. reflexivity.
  - intros net now ip Hip H. unfold Lookup.handler. rewrite Hip, H. reflexivity.
  - intros net now ip Hip H. unfold ThreatAssessment.handler.
    rewrite Hip, H. reflexivity.
  - intros E net now ip1 ip2 H1 H2 H. unfold Distance.handler, Promise_all.
    rewrite H1, H2. simpl.
    destruct H as [H|H]; rewrite H; [reflexivity|].
    destruct (net 0%nat (Distance.url ip1)); reflexivity.
  - intros E net now ip e. unfold Full.handler.
    destruct (isValidIP ip); simpl; [|discriminate].
    destruct (Full.merge E now ip _ _ _) as [o|e0] eqn:Hm; simpl;
      [discriminate|].
    intros [= ?]; subst. eapply merge_raises_TypeError, Hm.
Qed.

(** *** Entrypoint [lookup] *)

(** Every outcome of [lookup]: an [error] echoes the requested address and
    is never an empty value; a record is returned only for a valid address
    whose answer reports the status [success], and holds the answer's own
    [query] as [ip]; the handler raises only when the fetch is rejected or
    fulfilled with [null]. *)
Theorem lookup_outcome (net : internet) (now ip : string) :
  match Lookup.handler net now ip with
  | Returns (Lookup.Failure error ip') =>
      ip' = ip /\ truthy error = true
      /\ (isValidIP ip = false
          \/ exists data, net 0%nat (Lookup.url ip) = Fulfilled data
                          /\ is_nullish data = false
                          /\ Spec.reports_success data = false)
  | Returns (Lookup.Located o) =>
      isValidIP ip = true
      /\ exists data, net 0%nat (Lookup.url ip) = Fulfilled data
                      /\ Spec.reports_success data = true
                      /\ Lookup.ip o = prop data "query"
  | Throws e =>
      isValidIP ip = true
      /\ (net 0%nat (Lookup.url ip) = Rejected /\ e = FetchRejected
          \/ exists data, net 0%nat (Lookup.url ip) = Fulfilled data
                          /\ is_nullish data = true /\ e = TypeError)
  end.
Proof.
  unfold Lookup.handler, Spec.reports_success, opt_chain, member.
  destruct (isValidIP ip); simpl; [|auto].
  destruct (net 0%nat (Lookup.url ip)) as [data|]; simpl; [|auto].
  destruct (is_nullish data) eqn:Hnull; simpl; [eauto 10|].
  destruct (is_string (prop data "status") "success") eqn:Hs; simpl.
  - split; [reflexivity|]. exists data. rewrite Hnull, Hs. auto.
  - split; [reflexivity|]. split.
    + unfold js_or. destruct (truthy (prop data "message")) eqn:Hm; auto.
    + right. exists data. rewrite Hnull, Hs. auto.
Qed.

(** For one valid address, [batch] turns every outcome of [lookup] into an
    entry: what [lookup] raises becomes the error [Request failed], its
    error output becomes [Lookup failed], and the record it returns gives
    the entry its [ip], place, coordinates and network. *)
Theorem batch_entry_follows_lookup (response : settled) (now ip : string) :
  isValidIP ip = true ->
  match Lookup.handler (fun _ _ => response) now ip with
  | Throws _ =>
      Batch.lookup_one response ip
      = Returns (Batch.ItemError ip "Request failed")
  | Returns (Lookup.Failure _ _) =>
      Batch.lookup_one response ip
      = Returns (Batch.ItemError ip "Lookup failed")
  | Returns (Lookup.Located o) =>
      exists isProxy isHosting,
        Batch.lookup_one response ip
        = Returns (Batch.ItemData (Lookup.ip o)
                     (Lookup.country (Lookup.location o))
                     (Lookup.countryCode (Lookup.location o))
                     (Lookup.city (Lookup.location o))
                     (Lookup.lat (Lookup.location o))
                     (Lookup.lon (Lookup.location o))
                     (Lookup.isp (Lookup.network o))
                     (Lookup.org (Lookup.network o))
                     (Lookup.asn (Lookup.network o)) isProxy isHosting)
  end.
Proof.
  intros Hip. unfold Lookup.handler, Batch.lookup_one, member.
  rewrite Hip. simpl.
  destruct response as [data|]; simpl; [|reflexivity].
  destruct (is_nullish data); simpl; [reflexivity|].
  destruct (is_string (prop data "status") "success"); simpl; eauto.
Qed.

Lemma batch_entry_follows_lookup_witness :
  Batch.lookup_one Rejected "8.8.8.8"
  = Returns (Batch.ItemError "8.8.8.8" "Request failed").
Proof.
  exact (batch_entry_follows_lookup Rejected "" "8.8.8.8" eq_refl).
Defined.

(** *** Entrypoint [threat] *)

(** The score is a multiple of 10 from 0 to 90 (within the 0-100 the source
    announces), and it can be recomputed from the factors listed: it is the
    sum of their points; no factor is listed twice. *)
Theorem risk_score_audit (data : value) :
  let risk := ThreatAssessment.assess data in
  (0 <= ThreatAssessment.score risk <= 90)%Z
  /\ (ThreatAssessment.score risk mod 10 = 0)%Z
  /\ ThreatAssessment.score risk
     = foldr Z.add 0%Z (map factor_points (ThreatAssessment.factors risk))
  /\ NoDup (ThreatAssessment.factors risk)
  /\ (length (ThreatAssessment.factors risk) <= 4)%nat.
Proof.
  unfold ThreatAssessment.assess, ThreatAssessment.step.
  destruct (truthy (prop data "proxy")), (truthy (prop data "hosting")),
    (truthy (prop data "mobile")), (truthy (prop data "reverse")); simpl;
    (split; [lia|]);
    (split; [reflexivity|]);
    (split; [reflexivity|]);
    (split; [apply (bool_decide_unpack _); vm_compute; reflexivity|lia]).
Qed.

(** The level in terms of the signals: [high] needs the proxy/VPN signal
    together with one other condition, or the three other conditions
    together; [low] is left only without proxy/VPN and hosting and with at
    most one of mobile and missing reverse DNS. *)
Theorem risk_level_by_signals (data : value) :
  let proxy := truthy (prop data "proxy") in
  let hosting := truthy (prop data "hosting") in
  let mobile := truthy (prop data "mobile") in
  let no_reverse := negb (truthy (prop data "reverse")) in
  let level := ThreatAssessment.level (ThreatAssessment.assess data) in
  (level = "high"
   <-> proxy && (hosting || mobile || no_reverse)
       || hosting && mobile && no_reverse = true)
  /\ (level = "low"
      <-> negb proxy && negb hosting && negb (mobile && no_reverse) = true)
  /\ (level = "high" \/ level = "medium" \/ level = "low").
Proof.
  unfold ThreatAssessment.assess, ThreatAssessment.step.
  destruct (truthy (prop data "proxy")), (truthy (prop data "hosting")),
    (truthy (prop data "mobile")), (truthy (prop data "reverse")); simpl;
    repeat split; intros; try discriminate; auto.
Qed.

Lemma threat_handler_inv (net : internet) (now ip : string)
  (o : ThreatAssessment.Assessment) :
  ThreatAssessment.handler net now ip = Returns (ThreatAssessment.Assessed o) ->
  exists data,
    net 0%nat (ThreatAssessment.url ip) = Fulfilled data
    /\ Spec.reports_success data = true
    /\ ThreatAssessment.risk o = ThreatAssessment.assess data
    /\ ThreatAssessment.isProxy (ThreatAssessment.threat o) = prop data "proxy"
    /\ ThreatAssessment.isVPN (ThreatAssessment.threat o) = prop data "proxy"
    /\ ThreatAssessment.isHosting (ThreatAssessment.threat o)
       = prop data "hosting"
    /\ ThreatAssessment.isMobile (ThreatAssessment.threat o)
       = prop data "mobile"
    /\ ThreatAssessment.hasReverseDNS (ThreatAssessment.threat o)
       = to_boolean (prop data "reverse")
    /\ ThreatAssessment.reverseDNS (ThreatAssessment.threat o)
       = prop data "reverse" ||| VNull.
Proof.
  unfold ThreatAssessment.handler, Spec.reports_success, opt_chain, member.
  destruct (isValidIP ip); simpl; [|discriminate].
  destruct (net 0%nat (ThreatAssessment.url ip)) as [data|]; simpl;
    [|discriminate].
  destruct (is_nullish data) eqn:Hnull; simpl; [discriminate|].
  destruct (is_string (prop data "status") "success") eqn:Hs; simpl;
    [|discriminate].
  intros [= <-]. exists data. simpl. rewrite Hnull. auto 12.
Qed.

(** In an assessment the flags and the factors tell the same story: a factor
    is listed exactly when its flag is truthy ([no_reverse_dns] exactly when
    [hasReverseDNS] is [false]), [reverseDNS] is [null] exactly when
    [hasReverseDNS] is [false], and [isVPN] is the value of [isProxy]. *)
Theorem threat_flags_agree_with_factors (net : internet) (now ip : string)
  (o : ThreatAssessment.Assessment) :
  ThreatAssessment.handler net now ip = Returns (ThreatAssessment.Assessed o) ->
  let flags := ThreatAssessment.threat o in
  let factors := ThreatAssessment.factors (ThreatAssessment.risk o) in
  (In "proxy_or_vpn" factors
   <-> truthy (ThreatAssessment.isProxy flags) = true)
  /\ (In "datacenter_hosting" factors
      <-> truthy (ThreatAssessment.isHosting flags) = true)
  /\ (In "mobile_carrier" factors
      <-> truthy (ThreatAssessment.isMobile flags) = true)
  /\ (In "no_reverse_dns" factors
      <-> ThreatAssessment.hasReverseDNS flags = VBool false)
  /\ (ThreatAssessment.reverseDNS flags = VNull
      <-> ThreatAssessment.hasReverseDNS flags = VBool false)
  /\ ThreatAssessment.isVPN flags = ThreatAssessment.isProxy flags.
Proof.
  intros H flags factors. subst flags factors.
  apply threat_handler_inv in H
    as (data & _ & _ & -> & -> & -> & -> & -> & -> & ->).
  unfold ThreatAssessment.assess, ThreatAssessment.step, to_boolean, js_or.
  assert (Hnull : truthy (prop data "reverse") = true ->
                  prop data "reverse" <> VNull).
  { intros Ht Hv. rewrite Hv in Ht. discriminate Ht. }
  destruct (truthy (prop data "proxy")), (truthy (prop data "hosting")),
    (truthy (prop data "mobile")), (truthy (prop data "reverse")); simpl;
    repeat split; intros; try discriminate; try tauto;
    try (exfalso; tauto); try (exfalso; intuition discriminate);
    try (exfalso; apply Hnull; auto; fail).
Qed.

Lemma threat_flags_agree_with_factors_witness :
  exists o,
    ThreatAssessment.handler
      (fun _ _ => Fulfilled (ip_api_signals true false false "")) ""
      "8.8.8.8" = Returns (ThreatAssessment.Assessed o)
    /\ (In "no_reverse_dns"
          (ThreatAssessment.factors (ThreatAssessment.risk o))
        <-> ThreatAssessment.hasReverseDNS (ThreatAssessment.threat o)
            = VBool false).
Proof.
  eexists. split; [vm_compute; reflexivity|].
  apply (threat_flags_agree_with_factors
           (fun _ _ => Fulfilled (ip_api_signals true false false "")) ""
           "8.8.8.8").
  vm_compute; reflexivity.
Defined.

(** *** Entrypoint [full] *)

(** The merged [asn] is never an empty value: the last candidate is the
    synthesised string, which is there even when no source reports an ASN,
    and then reads [ASundefined]. *)
Theorem full_asn_is_never_empty (E : Engine) (now ip : string)
  (a b c : settled) (o : Full.Intelligence) :
  Full.merge E now ip a b c = Returns o ->
  truthy (Full.asn (Full.network o)) = true
  /\ (truthy (Full.value_or_null a ?. "as") = false ->
      truthy (Full.value_or_null b ?. "org") = false ->
      Full.value_or_null c ?. "connection" ?. "asn" = VUndefined ->
      Full.asn (Full.network o) = VStr "ASundefined").
Proof.
  intros H. apply merge_inv in H as (_ & Hn & _).
  apply merge_network_inv in Hn as (Hasn & _). simpl in Hasn.
  set (pa := Full.value_or_null a ?. "as") in *.
  set (so := Full.value_or_null b ?. "org") in *.
  set (ta := Full.value_or_null c ?. "connection" ?. "asn") in *.
  destruct (truthy pa) eqn:Hpa; simpl in Hasn.
  { injection Hasn as <-. split; [exact Hpa|discriminate]. }
  destruct (truthy so) eqn:Hso; simpl in Hasn.
  { injection Hasn as <-. split; [exact Hso|discriminate]. }
  unfold template in Hasn.
  apply bind_returns_inv in Hasn as (txt & Htxt & [= <-]).
  split; [reflexivity|]. intros _ _ Hta. rewrite Hta in Htxt.
  injection Htxt as <-. reflexivity.
Qed.

Lemma full_asn_is_never_empty_witness :
  exists o,
    Full.merge idle_engine "" "8.8.8.8" Rejected Rejected Rejected = Returns o
    /\ truthy (Full.asn (Full.network o)) = true
    /\ Full.asn (Full.network o) = VStr "ASundefined".
Proof.
  eexists. split; [vm_compute; reflexivity|].
  destruct (full_asn_is_never_empty idle_engine "" "8.8.8.8" Rejected Rejected
              Rejected _ eq_refl) as [Htruthy Hnone].
  split; [exact Htruthy|]. apply Hnone; reflexivity.
Defined.

(** [full] raises a [TypeError] when ipinfo.io answers with a [loc] that is
    truthy and not a string (a pair of numbers, say) and the primary source
    gives no latitude: the handler calls [split] on it. *)
Theorem full_raises_on_loc_that_is_no_string (E : Engine) (now ip : string)
  (a c : settled) (secondary : value) :
  truthy (secondary ?. "loc") = true ->
  (forall text, prop secondary "loc" <> VStr text) ->
  truthy (Full.value_or_null a ?. "lat") = false ->
  Full.merge E now ip a (Fulfilled secondary) c = Throws TypeError.
Proof.
  intros Hloc Hnot Hlat.
  assert (Hsplit : Full.loc_coordinate E secondary 0 = Throws TypeError).
  { unfold Full.loc_coordinate. rewrite Hloc.
    destruct (prop secondary "loc") as [| | | |text| | |] eqn:Hp;
      try reflexivity.
    exfalso. apply (Hnot text). reflexivity. }
  unfold Full.merge, Full.merge_location.
  change (Full.value_or_null (Fulfilled secondary)) with secondary.
  rewrite (exec_or_returns (Full.value_or_null a ?. "lat")), Hlat, Hsplit.
  reflexivity.
Qed.

Lemma full_raises_on_loc_that_is_no_string_witness :
  Full.merge idle_engine "" "8.8.8.8" Rejected
    (Fulfilled (object [("loc", VArr [VNum 37.4; VNum (-122.1)])])) Rejected
  = Throws TypeError.
Proof.
  apply full_raises_on_loc_that_is_no_string.
  - vm_compute; reflexivity.
  - intros text H. vm_compute in H. discriminate H.
  - vm_compute; reflexivity.
Defined.

Lemma loc_coordinate_returns (E : Engine) (s : value) (i : nat) :
  truthy (s ?. "loc") = false \/ (exists text, prop s "loc" = VStr text) ->
  exists v, Full.loc_coordinate E s i = Returns v.
Proof.
  unfold Full.loc_coordinate. intros [H|[text H]].
  - rewrite H. eauto.
  - destruct (truthy (s ?. "loc")); [|eauto]. rewrite H. simpl. eauto.
Qed.

(** [full] returns a merged record whenever the [loc] of ipinfo.io is a
    string or is missing, and the [asn] of ipwho.is is not an array or an
    object: with the types the providers document, no outcome of the three
    fetches makes it raise. *)
Theorem full_returns_on_documented_types (E : Engine) (now ip : string)
  (a b c : settled) :
  truthy (Full.value_or_null b ?. "loc") = false
  \/ (exists text, prop (Full.value_or_null b) "loc" = VStr text) ->
  match Full.value_or_null c ?. "connection" ?. "asn" with
  | VArr _ | VObj _ => False
  | _ => True
  end ->
  exists o, Full.merge E now ip a b c = Returns o.
Proof.
  intros Hloc Hasn. apply merge_returns.
  assert (Hmid : forall x y i,
             exists v, Spec.first_truthy
                         [Returns x; Full.loc_coordinate E (Full.value_or_null b) i;
                          Returns y] = Returns v).
  { intros x y i. destruct (loc_coordinate_returns E _ i Hloc) as [v Hv].
    simpl. rewrite Hv. simpl.
    destruct (truthy x); [eauto|]. destruct (truthy v); eauto. }
  assert (Hlast : exists v,
             Spec.first_truthy
               (Spec.candidates E Spec.f_asn (Full.value_or_null a)
                  (Full.value_or_null b) (Full.value_or_null c)) = Returns v).
  { simpl. unfold template.
    destruct (truthy (Full.value_or_null a ?. "as")); [eauto|].
    destruct (truthy (Full.value_or_null b ?. "org")); [eauto|].
    destruct (Full.value_or_null c ?. "connection" ?. "asn") as [| |[|]| | | | |];
      simpl; eauto; contradiction. }
  destruct (Hmid (Full.value_or_null a ?. "lat")
              (Full.value_or_null c ?. "latitude") 0%nat) as [la Hla].
  destruct (Hmid (Full.value_or_null a ?. "lon")
              (Full.value_or_null c ?. "longitude") 1%nat) as [lo Hlo].
  destruct Hlast as [asn Hasn'].
  exists la, lo, asn. auto.
Qed.

Lemma full_returns_on_documented_types_witness :
  exists o,
    Full.merge idle_engine "" "8.8.8.8" Rejected
      (Fulfilled (object [("loc", VStr "37.4056,-122.0775")]))
      (Fulfilled (object [("connection", object [("asn", VNum 15169)])]))
    = Returns o.
Proof.
  apply full_returns_on_documented_types.
  - right. eexists. vm_compute; reflexivity.
  - vm_compute. exact I.
Defined.

Lemma js_or_absent (x : value) :
  VUndefined ||| x ||| VUndefined = x ||| VUndefined.
Proof. reflexivity. Qed.

Lemma js_or_undefined_twice (x : value) :
  x ||| VUndefined ||| VUndefined = x ||| VUndefined.
Proof. unfold js_or. destruct (truthy x) eqn:Hx; rewrite ?Hx; reflexivity. Qed.

Lemma exec_or_absent (x : value) :
  Returns x |||! Returns VNull |||! Returns VUndefined
  = Returns (x ||| VUndefined).
Proof.
  unfold exec_or, js_or. simpl.
  destruct (truthy x) eqn:Hx; simpl; rewrite ?Hx; reflexivity.
Qed.

Lemma asn_absent (E : Engine) (x : value) :
  Returns x |||! Returns VUndefined |||! template E "AS" VUndefined
  = Returns (x ||| VStr "ASundefined").
Proof.
  unfold exec_or, js_or. simpl.
  destruct (truthy x) eqn:Hx; simpl; rewrite ?Hx; reflexivity.
Qed.

(** With ip-api.com as the only source (the two other fetches rejected),
    [full] returns whatever the answer holds, and the merge keeps of each
    field of the answer exactly the truthy values: every other field is
    [undefined], except [asn], which reads [ASundefined]. *)
Theorem full_primary_alone (E : Engine) (now ip : string) (primary : value) :
  exists o,
    Full.merge E now ip (Fulfilled primary) Rejected Rejected = Returns o
    /\ Full.location o = {|
         Full.country := primary ?. "country" ||| VUndefined;
         Full.countryCode := primary ?. "countryCode" ||| VUndefined;
         Full.region := primary ?. "regionName" ||| VUndefined;
         Full.city := primary ?. "city" ||| VUndefined;
         Full.zip := primary ?. "zip" ||| VUndefined;
         Full.lat := primary ?. "lat" ||| VUndefined;
         Full.lon := primary ?. "lon" ||| VUndefined;
         Full.timezone := primary ?. "timezone" ||| VUndefined |}
    /\ Full.network o = {|
         Full.isp := primary ?. "isp" ||| VUndefined;
         Full.org := primary ?. "org" ||| VUndefined;
         Full.asn := primary ?. "as" ||| VStr "ASundefined";
         Full.hostname := primary ?. "reverse" ||| VUndefined;
         Full.domain := VUndefined |}
    /\ Full.isAnycast (Full.threat o) = VBool false
    /\ Full.sourcesResponded (Full.confidence o)
       = if truthy primary then 1%nat else 0%nat.
Proof.
  unfold Full.merge, Full.merge_location, Full.merge_network,
    Full.loc_coordinate.
  change (Full.value_or_null (Fulfilled primary)) with primary.
  change (Full.value_or_null Rejected) with VNull.
  change (VNull ?. "loc") with VUndefined.
  change (truthy VUndefined) with false. cbv iota.
  change (VNull ?. "latitude") with VUndefined.
  change (VNull ?. "longitude") with VUndefined.
  change (VNull ?. "org") with VUndefined.
  change (VNull ?. "connection" ?. "asn") with VUndefined.
  rewrite !exec_or_absent, asn_absent.
  eexists. split; [reflexivity|]. simpl.
  change (VNull ?. "country") with VUndefined.
  change (VNull ?. "country_code") with VUndefined.
  change (VNull ?. "region") with VUndefined.
  change (VNull ?. "city") with VUndefined.
  change (VNull ?. "postal") with VUndefined.
  change (VNull ?. "timezone") with VUndefined.
  change (VUndefined ?. "id") with VUndefined.
  change (VNull ?. "connection") with VUndefined.
  change (VUndefined ?. "isp") with VUndefined.
  change (VUndefined ?. "org") with VUndefined.
  change (VNull ?. "hostname") with VUndefined.
  rewrite !js_or_undefined_twice.
  split; [reflexivity|]. split; [reflexivity|]. split; [reflexivity|].
  destruct (truthy primary); reflexivity.
Qed.

(** With ipinfo.io as the only source, the merged [countryCode] is the
    [country] of ipinfo.io like the merged [country], the merged [asn] is
    its [org] like the merged [org] whenever that is truthy, and [isp],
    [domain] and the signals of the primary source stay unknown. *)
Theorem full_secondary_alone (E : Engine) (now ip : string)
  (secondary : value) (o : Full.Intelligence) :
  Full.merge E now ip Rejected (Fulfilled secondary) Rejected = Returns o ->
  Full.country (Full.location o) = secondary ?. "country" ||| VUndefined
  /\ Full.countryCode (Full.location o) = Full.country (Full.location o)
  /\ Full.org (Full.network o) = secondary ?. "org" ||| VUndefined
  /\ (truthy (secondary ?. "org") = true ->
      Full.asn (Full.network o) = Full.org (Full.network o))
  /\ Full.isp (Full.network o) = VUndefined
  /\ Full.domain (Full.network o) = VUndefined
  /\ Full.isProxy (Full.threat o) = VBool false
  /\ Full.isHosting (Full.threat o) = VBool false
  /\ Full.isMobile (Full.threat o) = VBool false.
Proof.
  intros H. apply merge_inv in H as (Hl & Hn & Ht & _).
  apply merge_location_inv in Hl as (_ & _ & Hcountry & Hcode & _).
  apply merge_network_inv in Hn as (Hasn & Hisp & Horg & _ & Hdom).
  change (Full.value_or_null (Fulfilled secondary)) with secondary in *.
  change (Full.value_or_null Rejected) with VNull in *.
  rewrite Hcountry, Hcode, Horg, Hisp, Hdom, Ht.
  repeat split.
  intros Htruthy. simpl in Hasn.
  change (VNull ?. "as") with VUndefined in Hasn. simpl in Hasn.
  rewrite Htruthy in Hasn. injection Hasn as <-.
  change (VNull ?. "org") with VUndefined.
  change (VNull ?. "connection" ?. "org") with VUndefined.
  unfold js_or. simpl. rewrite Htruthy. reflexivity.
Qed.

Lemma full_secondary_alone_witness :
  exists o,
    Full.merge idle_engine "" "8.8.8.8" Rejected
      (Fulfilled (object [("country", VStr "US");
                          ("org", VStr "AS15169 Google LLC")]))
      Rejected = Returns o
    /\ Full.countryCode (Full.location o) = VStr "US"
    /\ Full.asn (Full.network o) = VStr "AS15169 Google LLC".
Proof.
  eexists. split; [vm_compute; reflexivity|].
  destruct (full_secondary_alone idle_engine "" "8.8.8.8"
              (object [("country", VStr "US");
                       ("org", VStr "AS15169 Google LLC")]) _ eq_refl)
    as (Hcountry & Hcode & Horg & Hasn & _).
  split.
  - etransitivity; [exact Hcode|]. etransitivity; [exact Hcountry|].
    vm_compute; reflexivity.
  - etransitivity; [apply Hasn; vm_compute; reflexivity|].
    etransitivity; [exact Horg|]. vm_compute; reflexivity.
Defined.

(** [sourcesResponded] never exceeds [sourcesQueried]; it is 0 exactly when
    every fetch is rejected or fulfilled with a falsy body, and 3 exactly
    when each is fulfilled with a truthy one. *)
Theorem full_confidence_bounds (E : Engine) (now ip : string)
  (a b c : settled) (o : Full.Intelligence) :
  Full.merge E now ip a b c = Returns o ->
  let responded := Full.sourcesResponded (Full.confidence o) in
  let answered x := truthy (Full.value_or_null x) in
  (responded <= Full.sourcesQueried (Full.confidence o))%nat
  /\ (responded = 0%nat
      <-> answered a = false /\ answered b = false /\ answered c = false)
  /\ (responded = 3%nat
      <-> answered a = true /\ answered b = true /\ answered c = true).
Proof.
  intros H responded answered. subst responded answered. cbv beta.
  apply merge_confidence_counts in H as [-> ->]. simpl.
  destruct (truthy (Full.value_or_null a)), (truthy (Full.value_or_null b)),
    (truthy (Full.value_or_null c)); simpl;
    repeat split; intros; try lia; try discriminate; try tauto;
    intuition discriminate.
Qed.

Lemma full_confidence_bounds_witness :
  exists o,
    Full.merge idle_engine "" "8.8.8.8" (Fulfilled ip_api_without_zip) Rejected
      (Fulfilled VNull) = Returns o
    /\ (Full.sourcesResponded (Full.confidence o) <= 3)%nat.
Proof.
  eexists. split; [vm_compute; reflexivity|].
  apply (full_confidence_bounds idle_engine "" "8.8.8.8"
           (Fulfilled ip_api_without_zip) Rejected (Fulfilled VNull) _ eq_refl).
Defined.

(** *** Entrypoint [batch], continued *)

(** Only the requests for the valid addresses count: two internets that
    settle those alike give the same output, whatever else differs (nothing
    is fetched for an invalid address). *)
Theorem batch_ignores_other_requests (net net' : internet) (now : string)
  (ips : list string) :
  (forall i ip,
      List.filter isValidIP ips !! i = Some ip ->
      net' i (Batch.url ip) = net i (Batch.url ip)) ->
  Batch.handler net' now ips = Batch.handler net now ips.
Proof.
  intros Hsame. rewrite !batch_handler_returns. do 2 f_equal.
  apply imap_ext. intros i ip Hip. cbv beta. rewrite (Hsame i ip Hip).
  reflexivity.
Qed.

Lemma batch_ignores_other_requests_witness :
  Batch.handler (fun i _ => if (i =? 0)%nat then Fulfilled VNull else Rejected)
    "" ["8.8.8.8"; "8.8.8.256"]
  = Batch.handler (fun _ _ => Fulfilled VNull) "" ["8.8.8.8"; "8.8.8.256"].
Proof.
  apply batch_ignores_other_requests.
  intros [|i] ip H; [reflexivity|]. vm_compute in H. discriminate H.
Defined.

Lemma invalidIPs_field (l : list string) :
  default [] (if (0 <? length l)%nat then Some l else None) = l.
Proof. destruct l; reflexivity. Qed.

(** A batch of two lists put end to end is the two batches put end to end,
    the second one run on the internet as the first one leaves it (after one
    request per valid address): the results and the invalid addresses are
    appended, the counts added. *)
Theorem batch_of_append (net : internet) (now : string)
  (ips1 ips2 : list string) :
  exists o1 o2 o,
    Batch.handler net now ips1 = Returns o1
    /\ Batch.handler (later (Batch.valid (Batch.count o1)) net) now ips2
       = Returns o2
    /\ Batch.handler net now (ips1 ++ ips2)%list = Returns o
    /\ Batch.results o = (Batch.results o1 ++ Batch.results o2)%list
    /\ default [] (Batch.invalidIPs o)
       = (default [] (Batch.invalidIPs o1)
          ++ default [] (Batch.invalidIPs o2))%list
    /\ Batch.requested (Batch.count o)
       = (Batch.requested (Batch.count o1)
          + Batch.requested (Batch.count o2))%nat
    /\ Batch.valid (Batch.count o)
       = (Batch.valid (Batch.count o1) + Batch.valid (Batch.count o2))%nat
    /\ Batch.invalid (Batch.count o)
       = (Batch.invalid (Batch.count o1)
          + Batch.invalid (Batch.count o2))%nat.
Proof.
  do 3 eexists.
  split; [apply batch_handler_returns|].
  split; [apply batch_handler_returns|].
  split; [apply batch_handler_returns|].
  simpl. rewrite !invalidIPs_field, !List.filter_app, !length_app, imap_app.
  repeat split.
Qed.

(** An entry of [results] is an error exactly when its fetch was rejected or
    answered without the status [success]: an entry that carries data always
    comes from an answer that reports success. *)
Theorem batch_error_iff_failed (net : internet) (now : string)
  (ips : list string) :
  exists o,
    Batch.handler net now ips = Returns o
    /\ forall i ip,
         List.filter isValidIP ips !! i = Some ip ->
         exists item,
           Batch.results o !! i = Some item
           /\ (Spec.is_error item = true
               <-> net i (Batch.url ip) = Rejected
                   \/ exists data,
                        net i (Batch.url ip) = Fulfilled data
                        /\ is_string (data ?. "status") "success" = false).
Proof.
  eexists. split; [apply batch_handler_returns|]. simpl.
  intros i ip Hip. eexists. split.
  - rewrite list_lookup_imap, Hip. reflexivity.
  - rewrite item_error_is_failed. unfold Spec.item_failed, Spec.reports_success.
    destruct (net i (Batch.url ip)) as [data|].
    + rewrite negb_true_iff. split.
      * intros H. right. eauto.
      * intros [H|(data' & [= <-] & H)]; [discriminate H|exact H].
    + split; auto.
Qed.

(** *** [haversineDistance] in binary64 arithmetic *)

Section FloatSigns.
#[local] Open Scope float_scope.

Lemma SFopp_round_aux (s : bool) (m e : Z) (l : location) :
  SFopp (binary_round_aux prec emax s m e l)
  = binary_round_aux prec emax (negb s) m e l.
Proof.
  unfold binary_round_aux.
  destruct (shr_fexp prec emax m e l) as [mrs' e'].
  destruct (shr_fexp prec emax _ e' loc_Exact) as [mrs'' e''].
  destruct (shr_m mrs''); try reflexivity.
  destruct (Z.leb e'' (Z.sub emax prec)); reflexivity.
Qed.

Lemma SFopp_round (s : bool) (m : positive) (e : Z) :
  SFopp (binary_round prec emax s m e) = binary_round prec emax (negb s) m e.
Proof.
  unfold binary_round. destruct (shl_align m e _) as [mz ez].
  apply SFopp_round_aux.
Qed.

Lemma SFopp_normalize (m e : Z) :
  m <> 0%Z ->
  SFopp (binary_normalize prec emax m e false)
  = binary_normalize prec emax (- m)%Z e false.
Proof.
  destruct m as [|p|p]; intros Hm; [contradiction| |]; simpl;
    apply SFopp_round.
Qed.

Lemma SFsub_swap (x y : spec_float) :
  SF64sub y x = SFopp (SF64sub x y)
  \/ (SF64sub x y = S754_zero false /\ SF64sub y x = S754_zero false).
Proof.
  unfold SF64sub.
  destruct x as [sx|sx| |sx mx ex], y as [sy|sy| |sy my ey]; simpl;
    try (destruct sx, sy; simpl; auto; fail); try (destruct sx; auto; fail);
    try (destruct sy; auto; fail); auto.
  rewrite (Z.min_comm ey ex).
  set (a := cond_Zopp sx _). set (b := cond_Zopp sy _).
  destruct (Z.eq_dec (a - b)%Z 0%Z) as [Hz|Hz].
  - right. rewrite Hz. replace (b - a)%Z with 0%Z by lia. auto.
  - left. rewrite SFopp_normalize by exact Hz. f_equal. lia.
Qed.

Lemma float_sub_swap (x y : float) :
  y - x = - (x - y) \/ (x - y = 0 /\ y - x = 0).
Proof.
  destruct (SFsub_swap (Prim2SF x) (Prim2SF y)) as [H|[H1 H2]].
  - left. apply Prim2SF_inj. rewrite opp_spec, !sub_spec. exact H.
  - right. split; apply Prim2SF_inj; rewrite sub_spec; assumption.
Qed.

Lemma SFmul_opp (x y : spec_float) :
  SF64mul (SFopp x) y = SFopp (SF64mul x y).
Proof.
  unfold SF64mul.
  destruct x as [sx|sx| |sx mx ex], y as [sy|sy| |sy my ey]; simpl;
    rewrite ?SFopp_round_aux, ?negb_xorb_l; reflexivity.
Qed.

Lemma SFdiv_opp (x y : spec_float) :
  SF64div (SFopp x) y = SFopp (SF64div x y).
Proof.
  unfold SF64div.
  destruct x as [sx|sx| |sx mx ex], y as [sy|sy| |sy my ey]; simpl;
    rewrite ?negb_xorb_l; try reflexivity.
  destruct (SFdiv_core_binary prec emax (Z.pos mx) ex (Z.pos my) ey)
    as [[mz ez] lz].
  rewrite SFopp_round_aux, negb_xorb_l. reflexivity.
Qed.

Lemma SFmul_comm (x y : spec_float) : SF64mul x y = SF64mul y x.
Proof.
  unfold SF64mul.
  destruct x as [sx|sx| |sx mx ex], y as [sy|sy| |sy my ey]; simpl;
    rewrite ?(xorb_comm sy sx), ?(Pos.mul_comm my mx), ?(Z.add_comm ey ex);
    reflexivity.
Qed.

Lemma float_mul_opp (x y : float) : (- x) * y = - (x * y).
Proof. apply Prim2SF_inj. rewrite opp_spec, !mul_spec, opp_spec. apply SFmul_opp. Qed.

Lemma float_div_opp (x y : float) : (- x) / y = - (x / y).
Proof. apply Prim2SF_inj. rewrite opp_spec, !div_spec, opp_spec. apply SFdiv_opp. Qed.

Lemma float_mul_comm (x y : float) : x * y = y * x.
Proof. apply Prim2SF_inj. rewrite !mul_spec. apply SFmul_comm. Qed.

Lemma float_opp_involutive (x : float) : - - x = x.
Proof. apply Prim2SF_inj. rewrite !opp_spec. destruct (Prim2SF x) as [[]|[]| |[] m e]; reflexivity. Qed.

Lemma float_finite_cases (x : float) :
  is_finite x = true ->
  (exists s, Prim2SF x = S754_zero s)
  \/ (exists s m e, Prim2SF x = S754_finite s m e).
Proof.
  unfold is_finite, is_nan, is_infinity.
  rewrite !FloatAxioms.eqb_spec, abs_spec.
  destruct (Prim2SF x) as [s|s| |s m e]; simpl; eauto.
  - destruct s; discriminate.
  - discriminate.
Qed.

Lemma float_sub_diag (x : float) : is_finite x = true -> x - x = 0.
Proof.
  intros H. apply Prim2SF_inj. rewrite sub_spec.
  destruct (float_finite_cases x H) as [[s ->]|(s & m & e & ->)].
  - destruct s; reflexivity.
  - unfold SF64sub. simpl. rewrite Z.sub_diag. reflexivity.
Qed.

Lemma float_add_mul_zero (p : float) : is_finite p = true -> 0 + p * 0 = 0.
Proof.
  intros H. apply Prim2SF_inj. rewrite add_spec, mul_spec.
  destruct (float_finite_cases p H) as [[s ->]|(s & m & e & ->)];
    destruct s; reflexivity.
Qed.

Lemma float_square_opp (x : float) : (- x) * (- x) = x * x.
Proof.
  rewrite float_mul_opp, (float_mul_comm x (- x)), float_mul_opp.
  apply float_opp_involutive.
Qed.

Lemma haversine_term_swap (E : Engine) (u v : float) :
  (forall x, Math_sin E (- x) = - Math_sin E x) ->
  (forall x, exponentiate E (- x) 2 = exponentiate E x 2) ->
  exponentiate E (Math_sin E ((v - u) * Math_PI / 180 / 2)) 2
  = exponentiate E (Math_sin E ((u - v) * Math_PI / 180 / 2)) 2.
Proof.
  intros Hsin Hsquare.
  destruct (float_sub_swap u v) as [->|[-> ->]]; [|reflexivity].
  rewrite float_mul_opp, !float_div_opp, Hsin, Hsquare. reflexivity.
Qed.

(** On an engine whose sine is odd and whose square is even,
    [haversineDistance] gives the same number, bit for bit, in both
    directions, for all coordinates (infinite ones and NaN included). *)
Theorem haversine_symmetric (E : Engine) (lat1 lon1 lat2 lon2 : float) :
  (forall x, Math_sin E (- x) = - Math_sin E x) ->
  (forall x, exponentiate E (- x) 2 = exponentiate E x 2) ->
  Distance.haversineDistance E lat1 lon1 lat2 lon2
  = Distance.haversineDistance E lat2 lon2 lat1 lon1.
Proof.
  intros Hsin Hsquare. unfold Distance.haversineDistance.
  rewrite (haversine_term_swap E lat1 lat2 Hsin Hsquare),
    (haversine_term_swap E lon1 lon2 Hsin Hsquare),
    (float_mul_comm (Math_cos E (lat1 * Math_PI / 180))).
  reflexivity.
Qed.

Lemma haversine_symmetric_witness :
  Distance.haversineDistance small_angle_engine 48.8566 2.3522 51.5074 (-0.1278)
  = Distance.haversineDistance small_angle_engine 51.5074 (-0.1278) 48.8566
      2.3522.
Proof.
  apply haversine_symmetric.
  - intros x. reflexivity.
  - intros x. apply float_square_opp.
Defined.

(** The distance from a point with finite coordinates to itself is exactly
    [+0], on an engine that has sin(0) = 0, 0 ** 2 = 0 and atan2(0, 1) = 0
    (the values ECMAScript prescribes), provided the cosine of the latitude
    multiplied by itself is a finite number. *)
Theorem haversine_of_a_point_to_itself (E : Engine) (lat lon : float) :
  Math_sin E 0 = 0 ->
  exponentiate E 0 2 = 0 ->
  Math_atan2 E 0 1 = 0 ->
  is_finite lat = true ->
  is_finite lon = true ->
  is_finite (Math_cos E (lat * Math_PI / 180)
             * Math_cos E (lat * Math_PI / 180)) = true ->
  Distance.haversineDistance E lat lon lat lon = 0.
Proof.
  intros Hsin Hsquare Hatan Hlat Hlon Hcos. unfold Distance.haversineDistance.
  rewrite (float_sub_diag lat Hlat), (float_sub_diag lon Hlon).
  change (0 * Math_PI / 180 / 2) with 0.
  rewrite Hsin, Hsquare, (float_add_mul_zero _ Hcos).
  change (sqrt 0) with 0. change (sqrt (1 - 0)) with 1.
  rewrite Hatan. reflexivity.
Qed.

Lemma haversine_of_a_point_to_itself_witness :
  Distance.haversineDistance small_angle_engine 48.8566 2.3522 48.8566 2.3522
  = 0.
Proof.
  apply haversine_of_a_point_to_itself; reflexivity.
Defined.

Lemma float_nan_add (x : float) : nan + x = nan.
Proof.
  apply Prim2SF_inj. rewrite add_spec.
  change (Prim2SF nan) with S754_nan.
  unfold SF64add, SFadd. destruct (Prim2SF x); reflexivity.
Qed.

(** Between two points of infinite latitude the difference of the latitudes
    is [NaN], and so is the distance on an engine that gives [NaN] for the
    sine, the square and the arc tangent of [NaN], as ECMAScript
    prescribes. *)
Lemma haversine_between_infinite_latitudes (E : Engine) (lon1 lon2 : float) :
  Math_sin E nan = nan ->
  exponentiate E nan 2 = nan ->
  Math_atan2 E nan nan = nan ->
  Distance.haversineDistance E infinity lon1 infinity lon2 = nan.
Proof.
  intros Hsin Hsquare Hatan. unfold Distance.haversineDistance.
  change ((infinity - infinity) * Math_PI / 180 / 2) with nan.
  rewrite Hsin, Hsquare, float_nan_add.
  change (sqrt nan) with nan. change (sqrt (1 - nan)) with nan.
  rewrite Hatan. reflexivity.
Qed.

(** C9 (as amended).  On an engine whose sine is odd and whose square is
    even, and which has sin(0) = 0, 0 ** 2 = 0 and atan2(0, 1) = 0, the
    distance is symmetric, bit for bit, for every pair of coordinate pairs,
    and the distance from a point to itself is exactly [+0] for every
    finite [lat] and [lon] (where the cosine of the latitude multiplied by
    itself is finite). *)
Theorem haversine_symmetric_and_zero_on_finite (E : Engine) :
  (forall x, Math_sin E (- x) = - Math_sin E x) ->
  (forall x, exponentiate E (- x) 2 = exponentiate E x 2) ->
  Math_sin E 0 = 0 ->
  exponentiate E 0 2 = 0 ->
  Math_atan2 E 0 1 = 0 ->
  (forall lat1 lon1 lat2 lon2,
      Distance.haversineDistance E lat1 lon1 lat2 lon2
      = Distance.haversineDistance E lat2 lon2 lat1 lon1)
  /\ (forall lat lon,
         is_finite lat = true ->
         is_finite lon = true ->
         is_finite (Math_cos E (lat * Math_PI / 180)
                    * Math_cos E (lat * Math_PI / 180)) = true ->
         Distance.haversineDistance E lat lon lat lon = 0).
Proof.
  intros Hodd Heven Hsin Hsquare Hatan. split.
  - intros lat1 lon1 lat2 lon2. unfold Distance.haversineDistance.
    rewrite (haversine_term_swap E lat1 lat2 Hodd Heven),
      (haversine_term_swap E lon1 lon2 Hodd Heven),
      (float_mul_comm (Math_cos E (lat1 * Math_PI / 180))).
    reflexivity.
  - intros lat lon Hlat Hlon Hcos. unfold Distance.haversineDistance.
    rewrite (float_sub_diag lat Hlat), (float_sub_diag lon Hlon).
    change (0 * Math_PI / 180 / 2) with 0.
    rewrite Hsin, Hsquare, (float_add_mul_zero _ Hcos).
    change (sqrt 0) with 0. change (sqrt (1 - 0)) with 1.
    rewrite Hatan. reflexivity.
Qed.

Lemma haversine_symmetric_and_zero_on_finite_witness :
  Distance.haversineDistance small_angle_engine 48.8566 2.3522 51.5074 (-0.1278)
  = Distance.haversineDistance small_angle_engine 51.5074 (-0.1278) 48.8566
      2.3522
  /\ Distance.haversineDistance small_angle_engine 48.8566 2.3522 48.8566
       2.3522 = 0.
Proof.
  destruct (haversine_symmetric_and_zero_on_finite small_angle_engine)
    as [Hsym Hzero].
  - intros x. reflexivity.
  - intros x. apply float_square_opp.
  - reflexivity.
  - reflexivity.
  - reflexivity.
  - split; [apply Hsym|apply Hzero; reflexivity].
Defined.

(** C9 (as stated) fails.  On the engine of the small-angle approximations,
    which meets every condition above and gives [NaN] for the sine, the
    square and the arc tangent of [NaN], the distance from the point of
    latitude [Infinity] to itself is [NaN], not 0: the difference of the
    two latitudes is [Infinity - Infinity]. *)
Lemma haversine_of_infinity_to_itself :
  ~ (forall E : Engine,
        (forall x, Math_sin E (- x) = - Math_sin E x) ->
        (forall x, exponentiate E (- x) 2 = exponentiate E x 2) ->
        Math_sin E 0 = 0 ->
        exponentiate E 0 2 = 0 ->
        Math_atan2 E 0 1 = 0 ->
        (forall lat1 lon1 lat2 lon2,
            Distance.haversineDistance E lat1 lon1 lat2 lon2
            = Distance.haversineDistance E lat2 lon2 lat1 lon1)
        /\ (forall lat lon, Distance.haversineDistance E lat lon lat lon = 0)).
Proof.
  intros claim.
  destruct (claim small_angle_engine) as [_ Hzero];
    [intros x; reflexivity|intros x; apply float_square_opp|reflexivity..|].
  specialize (Hzero infinity 0).
  rewrite (haversine_between_infinite_latitudes small_angle_engine 0 0)
    in Hzero by reflexivity.
  apply (f_equal is_nan) in Hzero. vm_compute in Hzero. discriminate Hzero.
Qed.

End FloatSigns.

(** *** Entrypoint [distance] *)

(** Every outcome of [distance]: a distance is measured only between two
    valid addresses whose answers both report the status [success], and the
    two places are the answers' own fields; an error output echoes both
    addresses and says whether an address was refused or a lookup failed;
    the handler raises only for two valid addresses. *)
Theorem distance_outcome (E : Engine) (net : internet) (now ip1 ip2 : string) :
  match Distance.handler E net now ip1 ip2 with
  | Returns (Distance.Measured o) =>
      isValidIP ip1 = true /\ isValidIP ip2 = true
      /\ exists data1 data2,
           net 0%nat (Distance.url ip1) = Fulfilled data1
           /\ net 1%nat (Distance.url ip2) = Fulfilled data2
           /\ Spec.reports_success data1 = true
           /\ Spec.reports_success data2 = true
           /\ Distance.ip1 o = Distance.place data1
           /\ Distance.ip2 o = Distance.place data2
  | Returns (Distance.Failure error ip1' ip2') =>
      ip1' = ip1 /\ ip2' = ip2
      /\ (error = "Invalid IP address format"
          /\ (isValidIP ip1 = false \/ isValidIP ip2 = false)
          \/ error = "One or both IP lookups failed"
             /\ isValidIP ip1 = true /\ isValidIP ip2 = true
             /\ exists data1 data2,
                  net 0%nat (Distance.url ip1) = Fulfilled data1
                  /\ net 1%nat (Distance.url ip2) = Fulfilled data2
                  /\ (Spec.reports_success data1 = false
                      \/ Spec.reports_success data2 = false))
  | Throws _ => isValidIP ip1 = true /\ isValidIP ip2 = true
  end.
Proof.
  unfold Distance.handler, Promise_all, Spec.reports_success, opt_chain, member.
  destruct (isValidIP ip1), (isValidIP ip2); simpl; auto 10.
  destruct (net 0%nat (Distance.url ip1)) as [data1|]; simpl; [|auto].
  destruct (net 1%nat (Distance.url ip2)) as [data2|]; simpl; [|auto].
  destruct (is_nullish data1) eqn:Hn1; simpl; [auto|].
  destruct (is_string (prop data1 "status") "success") eqn:Hs1; simpl.
  - destruct (is_nullish data2) eqn:Hn2; simpl; [auto|].
    destruct (is_string (prop data2 "status") "success") eqn:Hs2; simpl.
    + destruct (Distance.span_of E data1 data2) as [d|e]; simpl; [|auto].
      repeat split. exists data1, data2. rewrite Hn1, Hn2, Hs1, Hs2. auto 10.
    + repeat split. right. repeat split. exists data1, data2.
      rewrite Hn1, Hn2, Hs1, Hs2. auto.
  - repeat split. right. repeat split. exists data1, data2.
    rewrite Hn1, Hs1. auto.
Qed.

(** *** The coordinates of ipinfo.io *)

Lemma split_comma_whole (s : string) :
  all_chars not_comma s = true -> split_comma s = [s].
Proof.
  induction s as [|c s IH]; [reflexivity|].
  intros H. change (not_comma c && all_chars not_comma s = true) in H.
  apply andb_prop in H as [Hc Hs]. simpl. rewrite (IH Hs).
  unfold not_comma in Hc. apply negb_true_iff in Hc. rewrite Hc. reflexivity.
Qed.

Lemma split_comma_first (a rest : string) :
  all_chars not_comma a = true ->
  split_comma (a ++ "," ++ rest) = a :: split_comma rest.
Proof.
  induction a as [|c a IH]; [reflexivity|].
  intros H. change (not_comma c && all_chars not_comma a = true) in H.
  apply andb_prop in H as [Hc Hs].
  change (split_comma (String c (a ++ "," ++ rest))
          = String c a :: split_comma rest).
  simpl. rewrite (IH Hs).
  unfold not_comma in Hc. apply negb_true_iff in Hc. rewrite Hc. reflexivity.
Qed.

(** When the [loc] of ipinfo.io is two texts joined by one comma, the
    candidates for the latitude and the longitude are [parseFloat] of the
    first and of the second text. *)
Theorem loc_coordinates_of_a_pair (E : Engine) (secondary : value)
  (a b : string) :
  prop secondary "loc" = VStr (a ++ "," ++ b) ->
  all_chars not_comma a = true ->
  all_chars not_comma b = true ->
  Full.loc_coordinate E secondary 0 = Returns (VNum (parseFloat E a))
  /\ Full.loc_coordinate E secondary 1 = Returns (VNum (parseFloat E b)).
Proof.
  intros Hloc Ha Hb.
  assert (Hchain : secondary ?. "loc" = VStr (a ++ "," ++ b)).
  { unfold opt_chain. destruct secondary; try discriminate Hloc; exact Hloc. }
  assert (Htruthy : truthy (VStr (a ++ "," ++ b)) = true).
  { destruct a; reflexivity. }
  unfold Full.loc_coordinate. rewrite Hchain, Htruthy, Hloc. simpl.
  rewrite split_comma_first, split_comma_whole by assumption.
  split; reflexivity.
Qed.

Lemma loc_coordinates_of_a_pair_witness :
  Full.loc_coordinate idle_engine
    (object [("loc", VStr "37.4056,-122.0775")]) 1
  = Returns (VNum (parseFloat idle_engine "-122.0775")).
Proof.
  apply (loc_coordinates_of_a_pair idle_engine
           (object [("loc", VStr "37.4056,-122.0775")]) "37.4056" "-122.0775");
    vm_compute; reflexivity.
Defined.

(** When the [loc] of ipinfo.io is a non-empty text without a comma, the
    candidate for the latitude is [parseFloat] of the text, and the one for
    the longitude is [parseFloat] of the string [undefined]. *)
Theorem loc_coordinates_without_comma (E : Engine) (secondary : value)
  (a : string) :
  prop secondary "loc" = VStr a ->
  a <> "" ->
  all_chars not_comma a = true ->
  Full.loc_coordinate E secondary 0 = Returns (VNum (parseFloat E a))
  /\ Full.loc_coordinate E secondary 1
     = Returns (VNum (parseFloat E "undefined")).
Proof.
  intros Hloc Hne Ha.
  assert (Hchain : secondary ?. "loc" = VStr a).
  { unfold opt_chain. destruct secondary; try discriminate Hloc; exact Hloc. }
  assert (Htruthy : truthy (VStr a) = true).
  { destruct a; [contradiction|reflexivity]. }
  unfold Full.loc_coordinate. rewrite Hchain, Htruthy, Hloc. simpl.
  rewrite split_comma_whole by assumption. split; reflexivity.
Qed.

Lemma loc_coordinates_without_comma_witness :
  Full.loc_coordinate idle_engine (object [("loc", VStr "37.4056")]) 1
  = Returns (VNum (parseFloat idle_engine "undefined")).
Proof.
  apply (loc_coordinates_without_comma idle_engine
           (object [("loc", VStr "37.4056")]) "37.4056").
  - vm_compute; reflexivity.
  - discriminate.
  - vm_compute; reflexivity.
Defined.

(** *** Entrypoint [threat], its outcomes *)

(** Every outcome of [threat]: an [error] echoes the requested address and
    is never an empty value; an assessment is returned only for a valid
    address whose answer reports the status [success], and its risk is the
    assessment of that answer; the handler raises only when the fetch is
    rejected or fulfilled with [null]. *)
Theorem threat_outcome (net : internet) (now ip : string) :
  match ThreatAssessment.handler net now ip with
  | Returns (ThreatAssessment.Failure error ip') =>
      ip' = ip /\ truthy error = true
      /\ (isValidIP ip = false
          \/ exists data, net 0%nat (ThreatAssessment.url ip) = Fulfilled data
                          /\ is_nullish data = false
                          /\ Spec.reports_success data = false)
  | Returns (ThreatAssessment.Assessed o) =>
      isValidIP ip = true
      /\ exists data, net 0%nat (ThreatAssessment.url ip) = Fulfilled data
                      /\ Spec.reports_success data = true
                      /\ ThreatAssessment.risk o = ThreatAssessment.assess data
  | Throws e =>
      isValidIP ip = true
      /\ (net 0%nat (ThreatAssessment.url ip) = Rejected /\ e = FetchRejected
          \/ exists data, net 0%nat (ThreatAssessment.url ip) = Fulfilled data
                          /\ is_nullish data = true /\ e = TypeError)
  end.
Proof.
  unfold ThreatAssessment.handler, Spec.reports_success, opt_chain, member.
  destruct (isValidIP ip); simpl; [|auto].
  destruct (net 0%nat (ThreatAssessment.url ip)) as [data|]; simpl; [|auto].
  destruct (is_nullish data) eqn:Hnull; simpl; [eauto 10|].
  destruct (is_string (prop data "status") "success") eqn:Hs; simpl.
  - split; [reflexivity|]. exists data. rewrite Hnull, Hs. auto.
  - split; [reflexivity|]. split.
    + unfold js_or. destruct (truthy (prop data "message")) eqn:Hm; auto.
    + right. exists data. rewrite Hnull, Hs. auto.
Qed.
